(** * buptAsgmt-python: the finger game (asgmt1) and the word counters (asgmt2)

    A shallow embedding of [asgmt1/main.py] (class [FingerGame]) and of
    [asgmt2/main.py] ([count_word_occurrences], [merge_word_counts]),
    followed by the properties of the design document that concern them.

    Conventions of the embedding.
    - A Python [str] that is only compared for equality (a [Finger], an
      input line) is a [string]: the bytes of its UTF-8 encoding, which
      determine the text.
    - A Python [int] is a [Z].
    - A Python exception that nobody catches ends the run: a function that
      can raise returns a [result].
    - A Python [dict] whose iteration order is observed (the game's
      [user_finger_after_winning], which is sorted by a stable sort) is an
      association list in insertion order; a [dict] that is only read as a
      mapping (the word counts) is a [gmap].
    - The [random] module is an ideal source: [random.random()] is a
      uniform real of [[0,1)], so that [random.random() < p] holds with
      probability [p], and [random.choice] is uniform over the positions of
      its argument.  A computation that draws from it is a finite
      distribution with rational weights. *)

From Stdlib Require Import ZArith QArith String List Lia Permutation Sorted.
From Stdlib Require Import Ascii DecimalString DecimalZ.
From stdpp Require Import base gmap strings list fin_maps fin_sets.
Import ListNotations.

#[local] Open Scope string_scope.
#[local] Open Scope list_scope.
#[local] Open Scope Z_scope.

(** ** Exceptions *)

Inductive exn : Type :=
| AssertionError
| KeyError
| IndexError
| EOFError.

Inductive result (A : Type) : Type :=
| Ok (a : A)
| Raise (e : exn).
Arguments Ok {A} a.
Arguments Raise {A} e.

Definition rbind {A B : Type} (r : result A) (k : A -> result B) : result B :=
  match r with
  | Ok a => k a
  | Raise e => Raise e
  end.

Notation "'do' x <- r ; k" := (rbind r (fun x => k))
  (at level 10, x name, r at level 100, k at level 200).

(** ** Finite distributions *)

Module Dist.

(** A finite distribution: outcomes with their weights.  An outcome may
    occur several times; its probability is the sum of its weights. *)
Definition dist (A : Type) : Type := list (A * Q).

Definition ret {A : Type} (a : A) : dist A := [(a, 1%Q)].

Definition scale {A : Type} (p : Q) (d : dist A) : dist A :=
  List.map (fun aq => (fst aq, (p * snd aq)%Q)) d.

Definition bind {A B : Type} (d : dist A) (k : A -> dist B) : dist B :=
  List.flat_map (fun ap => scale (snd ap) (k (fst ap))) d.

(** [random.random() < p] *)
Definition random_lt (p : Q) : dist bool := [(true, p); (false, (1 - p)%Q)].

(** [random.choice(seq)]: [seq[randbelow(len(seq))]], an [IndexError] on
    the empty sequence. *)
Definition choice {A : Type} (seq : list A) : dist (result A) :=
  match seq with
  | [] => ret (Raise IndexError)
  | _ :: _ =>
      List.map (fun a => (Ok a, (1 / inject_Z (Z.of_nat (List.length seq)))%Q)) seq
  end.

Definition weight {A : Type} (d : dist A) : Q :=
  List.fold_right Qplus 0%Q (List.map snd d).

(** The probability of the event [P]. *)
Definition prob {A : Type} (P : A -> bool) (d : dist A) : Q :=
  weight (List.filter (fun aq => P (fst aq)) d).

(** How many positions of [seq] hold an element in [P]. *)
Definition favourable {A : Type} (P : result A -> bool) (seq : list A) : Z :=
  Z.of_nat (List.length (List.filter (fun a => P (Ok a)) seq)).

(** The outcomes that have a weight in [d]. *)
Definition outcomes {A : Type} (d : dist A) : list A := List.map fst d.

End Dist.

(** ** asgmt1: the finger game *)

Module FingerGame.

Definition Finger : Type := string.

Definition exit_str : string := "exit".

Definition available_fingers : list Finger :=
  ["拇指"; "食指"; "中指"; "无名指"; "小指"].

Definition win_lose_pairs : list (Finger * Finger) :=
  [("拇指", "食指");
   ("食指", "中指");
   ("中指", "无名指");
   ("无名指", "小指");
   ("小指", "拇指")].

(** [x in seq] for strings and for pairs of strings *)
Definition str_in (x : string) (seq : list string) : bool :=
  List.existsb (String.eqb x) seq.

Definition pair_in (p : Finger * Finger) (seq : list (Finger * Finger)) : bool :=
  List.existsb (fun q => String.eqb (fst p) (fst q) && String.eqb (snd p) (snd q)) seq.

(** *** [__get_winning_finger] *)

Fixpoint scan_pairs (pairs : list (Finger * Finger)) (predicted_finger : Finger)
  : result Finger :=
  match pairs with
  | [] => Raise AssertionError
  | (win, lose) :: rest =>
      if String.eqb lose predicted_finger then Ok win
      else scan_pairs rest predicted_finger
  end.

Definition get_winning_finger (predicted_finger : Finger) : result Finger :=
  scan_pairs win_lose_pairs predicted_finger.

(** *** [__judge]: the classification *)

Inductive outcome : Type := Win | Lose | Draw.

Definition classify (user_choice computer_choice : Finger) : outcome :=
  if pair_in (user_choice, computer_choice) win_lose_pairs then Win
  else if pair_in (computer_choice, user_choice) win_lose_pairs then Lose
  else Draw.

(** The flags that [__judge] passes to [update_stats] for an outcome. *)
Definition is_win (o : outcome) : bool := match o with Win => true | _ => false end.
Definition is_lose (o : outcome) : bool := match o with Lose => true | _ => false end.
Definition is_draw (o : outcome) : bool := match o with Draw => true | _ => false end.

(** *** The dictionary [user_finger_after_winning]

    Keys in insertion order.  [d[k] += 1] keeps the position of [k] and
    raises [KeyError] when [k] is absent. *)

Definition dict : Type := list (Finger * Z).

Fixpoint dict_get (d : dict) (k : Finger) : option Z :=
  match d with
  | [] => None
  | (k', v) :: rest => if String.eqb k' k then Some v else dict_get rest k
  end.

Fixpoint dict_incr (d : dict) (k : Finger) : result dict :=
  match d with
  | [] => Raise KeyError
  | (k', v) :: rest =>
      if String.eqb k' k then Ok ((k', v + 1) :: rest)
      else do rest' <- dict_incr rest k; Ok ((k', v) :: rest')
  end.

Definition dict_keys (d : dict) : list Finger := List.map fst d.
Definition dict_values (d : dict) : list Z := List.map snd d.

(** *** [Statistics] *)

Record Statistics : Type := mkStatistics {
  total_turn : Z;
  win_turn : Z;
  lose_turn : Z;
  draw_turn : Z;
  user_finger_after_winning : dict;
  last_user_finger : option Finger;
  last_user_win : bool
}.

(** A flag as a number. *)
Definition b2z (b : bool) : Z := if b then 1 else 0.

(** [Statistics.__init__] *)
Definition Statistics_init (fingers : list Finger) : Statistics :=
  {| total_turn := 0;
     win_turn := 0;
     lose_turn := 0;
     draw_turn := 0;
     user_finger_after_winning := List.map (fun finger => (finger, 0)) fingers;
     last_user_finger := None;
     last_user_win := false |}.

(** Assignments to the attributes of [self]. *)
Definition set_total_turn (v : Z) (self : Statistics) : Statistics :=
  mkStatistics v (win_turn self) (lose_turn self) (draw_turn self)
    (user_finger_after_winning self) (last_user_finger self) (last_user_win self).
Definition set_win_turn (v : Z) (self : Statistics) : Statistics :=
  mkStatistics (total_turn self) v (lose_turn self) (draw_turn self)
    (user_finger_after_winning self) (last_user_finger self) (last_user_win self).
Definition set_lose_turn (v : Z) (self : Statistics) : Statistics :=
  mkStatistics (total_turn self) (win_turn self) v (draw_turn self)
    (user_finger_after_winning self) (last_user_finger self) (last_user_win self).
Definition set_draw_turn (v : Z) (self : Statistics) : Statistics :=
  mkStatistics (total_turn self) (win_turn self) (lose_turn self) v
    (user_finger_after_winning self) (last_user_finger self) (last_user_win self).
Definition set_user_finger_after_winning (v : dict) (self : Statistics) : Statistics :=
  mkStatistics (total_turn self) (win_turn self) (lose_turn self) (draw_turn self)
    v (last_user_finger self) (last_user_win self).
Definition set_last_user_finger (v : option Finger) (self : Statistics) : Statistics :=
  mkStatistics (total_turn self) (win_turn self) (lose_turn self) (draw_turn self)
    (user_finger_after_winning self) v (last_user_win self).
Definition set_last_user_win (v : bool) (self : Statistics) : Statistics :=
  mkStatistics (total_turn self) (win_turn self) (lose_turn self) (draw_turn self)
    (user_finger_after_winning self) (last_user_finger self) v.

(** [Statistics.update_stats], statement by statement. *)
Definition update_stats (self : Statistics) (user_finger : Finger)
    (win draw lose : bool) : result Statistics :=
  let self := set_total_turn (total_turn self + 1) self in
  do self <-
    (if draw then Ok (set_draw_turn (draw_turn self + 1) self)
     else if win then Ok (set_win_turn (win_turn self + 1) self)
     else if lose then Ok (set_lose_turn (lose_turn self + 1) self)
     else Raise AssertionError);
  do self <-
    (if last_user_win self
     then do d <- dict_incr (user_finger_after_winning self) user_finger;
          Ok (set_user_finger_after_winning d self)
     else Ok self);
  let self := set_last_user_finger (Some user_finger) self in
  Ok (set_last_user_win win self).

(** *** [__judge]: printing and the update of the statistics *)

Inductive event : Type :=
| Banner                                  (* the greeting of [start] *)
| Prompt                                  (* [input(input_prompt)] *)
| ErrorPrompt                             (* [print(error_prompt)] *)
| ComputerChose (computer_choice : Finger)
| Announce (o : outcome).

Definition judge (self : Statistics) (user_choice computer_choice : Finger)
  : list event * result Statistics :=
  match classify user_choice computer_choice with
  | Win =>
      ([ComputerChose computer_choice; Announce Win],
       update_stats self user_choice true false false)
  | Lose =>
      ([ComputerChose computer_choice; Announce Lose],
       update_stats self user_choice false false true)
  | Draw =>
      ([ComputerChose computer_choice; Announce Draw],
       update_stats self user_choice false true false)
  end.

(** *** [sorted(seq, key=key, reverse=True)]

    Python's sort is stable, also with [reverse=True]: elements with equal
    keys keep the order they have in [seq]. *)

Fixpoint insert_desc {A : Type} (key : A -> Z) (x : A) (l : list A) : list A :=
  match l with
  | [] => [x]
  | y :: l' => if (key x <? key y)%Z then y :: insert_desc key x l' else x :: l
  end.

Definition sorted_desc {A : Type} (key : A -> Z) (seq : list A) : list A :=
  List.fold_right (insert_desc key) [] seq.

(** Where [x] is first met when [seq] is read from the left. *)
Fixpoint position {A : Type} `{EqDecision A} (x : A) (seq : list A) : nat :=
  match seq with
  | [] => O
  | y :: seq' => if decide (x = y) then O else S (position x seq')
  end.

(** [x] is to come before [y] in the sorted list: its key is larger, or the
    keys are equal and [x] is met first in [seq]. *)
Definition precedes {A : Type} `{EqDecision A} (key : A -> Z) (seq : list A)
    (x y : A) : Prop :=
  key y < key x \/ (key y = key x /\ (position x seq < position y seq)%nat).

(** *** [__get_computer_choice] *)

(** [user_finger_after_winning.get], the sort key.  It is only applied to
    keys of the dictionary, where it never yields [None]. *)
Definition after_winning_get (self : Statistics) (finger : Finger) : Z :=
  match dict_get (user_finger_after_winning self) finger with
  | Some v => v
  | None => 0
  end.

Definition predicted_fingers (self : Statistics) : list Finger :=
  List.firstn 2
    (sorted_desc (after_winning_get self) (dict_keys (user_finger_after_winning self))).

(** The order in which the sort puts the fingers of [self]: by the count of
    plays after a win, larger first, and among equal counts in the order of
    [available_fingers]. *)
Definition finger_precedes (self : Statistics) (x y : Finger) : Prop :=
  precedes (after_winning_get self) available_fingers x y.

(** [finger != last_user_finger], where [last_user_finger] may be [None] *)
Definition differs (finger : Finger) (last : option Finger) : bool :=
  match last with
  | None => true
  | Some l => negb (String.eqb finger l)
  end.

Definition remaining_fingers (self : Statistics) : list Finger :=
  List.filter (fun finger => differs finger (last_user_finger self)) available_fingers.

(** [random.choice(seq)] followed by [__get_winning_finger] *)
Definition beat_one_of (seq : list Finger) : Dist.dist (result Finger) :=
  Dist.bind (Dist.choice seq) (fun predicted_finger =>
    Dist.ret (do f <- predicted_finger; get_winning_finger f)).

Definition get_computer_choice (self : Statistics) : Dist.dist (result Finger) :=
  if last_user_win self then
    Dist.bind (Dist.random_lt (8 # 10)) (fun hit =>
      if hit then beat_one_of (predicted_fingers self)
      else Dist.choice available_fingers)
  else
    Dist.bind (Dist.random_lt (75 # 100)) (fun hit =>
      if hit then beat_one_of (remaining_fingers self)
      else Dist.choice available_fingers).

(** The event that the finger [g] comes out. *)
Definition is_finger (g : Finger) (r : result Finger) : bool :=
  match r with
  | Ok f => String.eqb f g
  | Raise _ => false
  end.

(** *** [__get_input] and [start]

    The standard input is the list of the lines still to be read; [input]
    raises [EOFError] when none is left. *)

Definition valid_input (user_input : string) : bool :=
  String.eqb user_input exit_str || str_in user_input available_fingers.

Fixpoint get_input (stdin : list string) : list event * result (string * list string) :=
  match stdin with
  | [] => ([Prompt], Raise EOFError)
  | user_input :: rest =>
      if valid_input user_input then ([Prompt], Ok (user_input, rest))
      else let (out, r) := get_input rest in (Prompt :: ErrorPrompt :: out, r)
  end.

(** What a run leaves behind: what it printed, and the statistics of the
    game or the exception that ended it. *)
Definition run : Type := (list event * result Statistics)%type.

Definition printed_before (out : list event) (d : Dist.dist run) : Dist.dist run :=
  List.map (fun rp => ((out ++ fst (fst rp), snd (fst rp)), snd rp)) d.

(** One round once the user's finger is known: the computer chooses, then
    [__judge]. *)
Definition round (self : Statistics) (user_choice : Finger) : Dist.dist run :=
  Dist.bind (get_computer_choice self) (fun computer_choice =>
    match computer_choice with
    | Raise e => Dist.ret ([], Raise e)
    | Ok c => Dist.ret (judge self user_choice c)
    end).

(** The [while True] loop of [start], with the loop of [__get_input] inlined
    so that the recursion is on the lines of the input; [game_loop_unfold]
    gives it back the shape it has in the source. *)
Fixpoint game_loop (self : Statistics) (stdin : list string) : Dist.dist run :=
  match stdin with
  | [] => Dist.ret ([Prompt], Raise EOFError)
  | user_input :: rest =>
      if valid_input user_input then
        if String.eqb user_input exit_str then Dist.ret ([Prompt], Ok self)
        else
          printed_before [Prompt]
            (Dist.bind (round self user_input) (fun r =>
               match snd r with
               | Raise e => Dist.ret r
               | Ok self' => printed_before (fst r) (game_loop self' rest)
               end))
      else printed_before [Prompt; ErrorPrompt] (game_loop self rest)
  end.

Definition start (self : Statistics) (stdin : list string) : Dist.dist run :=
  printed_before [Banner] (game_loop self stdin).

(** [FingerGame.__init__] *)
Definition init : Statistics := Statistics_init available_fingers.

(** [n] times the finger that beats the finger before *)
Fixpoint climb (n : nat) (f : Finger) : result Finger :=
  match n with
  | O => Ok f
  | S n' => do g <- climb n' f; get_winning_finger g
  end.

(** Two states of a game: after a first round that the thumb wins, and after
    a second round that the little finger loses. *)
Definition after_a_win : Statistics :=
  {| total_turn := 1; win_turn := 1; lose_turn := 0; draw_turn := 0;
     user_finger_after_winning :=
       [("拇指", 0); ("食指", 0); ("中指", 0); ("无名指", 0); ("小指", 0)];
     last_user_finger := Some "拇指";
     last_user_win := true |}.

Definition after_a_win_and_a_loss : Statistics :=
  {| total_turn := 2; win_turn := 1; lose_turn := 1; draw_turn := 0;
     user_finger_after_winning :=
       [("拇指", 0); ("食指", 0); ("中指", 0); ("无名指", 0); ("小指", 1)];
     last_user_finger := Some "小指";
     last_user_win := false |}.

(** *** The states of the statistics that a game can reach

    [reachable_in n self]: [self] is the state after [n] calls of
    [update_stats] that returned, each with exactly one of [win], [draw]
    and [lose] set, from the state [__init__] builds. *)

Definition exactly_one (win draw lose : bool) : Prop :=
  (win = true /\ draw = false /\ lose = false) \/
  (win = false /\ draw = true /\ lose = false) \/
  (win = false /\ draw = false /\ lose = true).

Inductive reachable_in : nat -> Statistics -> Prop :=
| reach_init : reachable_in 0 init
| reach_update (n : nat) (self self' : Statistics) (user_finger : Finger)
    (win draw lose : bool) :
    reachable_in n self ->
    exactly_one win draw lose ->
    update_stats self user_finger win draw lose = Ok self' ->
    reachable_in (S n) self'.

Definition reachable (self : Statistics) : Prop := exists n, reachable_in n self.

(** The sum of [user_finger_after_winning[finger]] over the fingers. *)
Definition after_winning_sum (self : Statistics) : Z :=
  List.fold_right Z.add 0 (List.map (after_winning_get self) available_fingers).

(** *** [Statistics.to_string] *)

(** [str(n)] for an [int], as the f-string writes it: the decimal digits,
    after a minus sign when [n] is negative. *)
Definition str_of_int (n : Z) : string := NilEmpty.string_of_int (Z.to_int n).

Definition tab : string := String (Ascii.ascii_of_nat 9) EmptyString.
Definition newline : string := String (Ascii.ascii_of_nat 10) EmptyString.

Definition to_string (self : Statistics) : string :=
  (("游戏结束, 统计信息如下:" ++ newline)
   ++ (tab ++ "总游戏数:" ++ tab ++ str_of_int (total_turn self) ++ ";")
   ++ (tab ++ "赢的次数:" ++ tab ++ str_of_int (win_turn self) ++ ";")
   ++ (tab ++ "输的次数:" ++ tab ++ str_of_int (lose_turn self) ++ ";")
   ++ (tab ++ "平局次数:" ++ tab ++ str_of_int (draw_turn self) ++ ";"))%string.

(** [c] does not occur in [s]. *)
Fixpoint free_of (c : Ascii.ascii) (s : string) : Prop :=
  match s with
  | EmptyString => True
  | String a s' => a <> c /\ free_of c s'
  end.

(** *** What a game reads and prints *)

(** What [__get_input] prints when it refuses [skipped] lines before it
    returns or meets the end of the input. *)
Definition prompts_for (skipped : nat) : list event :=
  List.concat (List.repeat [Prompt; ErrorPrompt] skipped) ++ [Prompt].

Definition invalid_line (line : string) : Prop := valid_input line = false.

(** The fingers entered before the first exit token. *)
Fixpoint fingers_played (stdin : list string) : list Finger :=
  match stdin with
  | [] => []
  | line :: rest =>
      if String.eqb line exit_str then []
      else if str_in line available_fingers then line :: fingers_played rest
      else fingers_played rest
  end.

(** Whether the exit token is among the lines. *)
Definition exits (stdin : list string) : bool := str_in exit_str stdin.

End FingerGame.

(** ** asgmt2: the word counters *)

Module WordCount.

(** A [str] is the sequence of its code points ([ord]). *)
Abbreviation str := (list N).

(** [str.isspace] on one character: the white space of Unicode, on which
    [str.split()] separates. *)
Definition isspace (c : N) : bool :=
  ((9 <=? c) && (c <=? 13) || (28 <=? c) && (c <=? 32) ||
   (c =? 133) || (c =? 160) || (c =? 5760) ||
   (8192 <=? c) && (c <=? 8202) || (c =? 8232) || (c =? 8233) ||
   (c =? 8239) || (c =? 8287) || (c =? 12288))%N.

(** [text.split()]: the maximal runs of characters that are not white
    space.  [word] is the run being read, last character first. *)
Fixpoint split_from (word : str) (text : str) : list str :=
  match text with
  | [] => match word with [] => [] | _ :: _ => [List.rev word] end
  | c :: rest =>
      if isspace c then
        match word with
        | [] => split_from [] rest
        | _ :: _ => List.rev word :: split_from [] rest
        end
      else split_from (c :: word) rest
  end.

Definition split (text : str) : list str := split_from [] text.

(** [words.count(word)] *)
Fixpoint count (word : str) (words : list str) : Z :=
  match words with
  | [] => 0
  | w :: rest => (if bool_decide (w = word) then 1 else 0) + count word rest
  end.

(** A dictionary comprehension [{key: value(key) for key in keys}]: the
    keys are inserted one after the other, a later one replaces an earlier
    equal one. *)
Definition dict_comprehension (value : str -> Z) (keys : list str) : gmap str Z :=
  List.fold_left (fun d key => <[key := value key]> d) keys ∅.

Definition count_word_occurrences (text : str) : gmap str Z :=
  let words := split text in
  dict_comprehension (fun word => count word words) words.

(** [d.get(key, default)] *)
Definition get (d : gmap str Z) (key : str) (default : Z) : Z :=
  match d !! key with
  | Some v => v
  | None => default
  end.

(** [merge_word_counts] when the set [set(dict1) | set(dict2)] is iterated
    in the order [keys]; Python leaves that order open. *)
Definition merge_word_counts_over (keys : list str) (dict1 dict2 : gmap str Z)
  : gmap str Z :=
  dict_comprehension (fun key => get dict1 key 0 + get dict2 key 0) keys.

Definition merge_word_counts (dict1 dict2 : gmap str Z) : gmap str Z :=
  merge_word_counts_over (elements (dom dict1 ∪ dom dict2)) dict1 dict2.

(** [sum(d.values())] *)
Definition sum_values (d : gmap str Z) : Z :=
  map_fold (fun _ v acc => v + acc) 0 d.

(** The sum of [f] over the elements of a list. *)
Definition sum_over (f : str -> Z) (keys : list str) : Z :=
  foldr (fun key acc => f key + acc) 0 keys.

(** *** [count_words_by_initial] *)

(** The letters [{chr(code) for code in range(ord("a"), ord("z") + 1)}]. *)
Definition initials : list N := List.map N.of_nat (List.seq 97 26).

(** [c.lower()] when it is one of these letters: the characters whose lower
    case is a letter from a to z are the letter itself, its capital and, for
    k, the Kelvin sign U+212A. *)
Definition lower_letter (c : N) : option N :=
  (if (97 <=? c) && (c <=? 122) then Some c
   else if (65 <=? c) && (c <=? 90) then Some (c + 32)
   else if c =? 8490 then Some 107
   else None)%N.

(** [c.lower() == initial], for an [initial] from a to z *)
Definition initial_is (c initial : N) : bool :=
  match lower_letter c with
  | Some l => (l =? initial)%N
  | None => false
  end.

(** One step of [sum(count for word, count in d.items() if
    word[0].lower() == initial)]; [word[0]] raises [IndexError] on the
    empty word. *)
Definition add_if_initial (initial : N) (word : str) (count : Z) (acc : result Z)
  : result Z :=
  do total <- acc;
  match word with
  | [] => Raise IndexError
  | c :: _ => Ok (if initial_is c initial then total + count else total)
  end.

Definition initial_total (d : gmap str Z) (initial : N) : result Z :=
  map_fold (add_if_initial initial) (Ok 0) d.

(** One entry of the comprehension: the total of [initial] is computed and
    stored under the letter. *)
Definition add_initial (word_count_dict : gmap str Z)
    (acc : result (gmap str Z)) (initial : N) : result (gmap str Z) :=
  do m <- acc;
  do total <- initial_total word_count_dict initial;
  Ok (<[[initial] := total]> m).

Definition count_words_by_initial (word_count_dict : gmap str Z)
  : result (gmap str Z) :=
  List.fold_left (add_initial word_count_dict) initials (Ok ∅).

(** What a word with its count adds to the total of [initial]. *)
Definition counted (initial : N) (word : str) (count : Z) : Z :=
  match word with
  | [] => 0
  | c :: _ => if initial_is c initial then count else 0
  end.

(** The counts of the words of [d] that begin with [initial], added up. *)
Definition initial_sum (d : gmap str Z) (initial : N) : Z :=
  map_fold (fun word count acc => counted initial word count + acc) 0 d.

(** Whether [word] begins with [initial], in either case. *)
Definition begins_with (initial : N) (word : str) : bool :=
  match word with
  | [] => false
  | c :: _ => initial_is c initial
  end.

(** The dictionary of the totals of the twenty-six letters. *)
Definition initial_counts (d : gmap str Z) : gmap str Z :=
  dict_comprehension (fun key => initial_sum d (List.hd 0%N key))
    (List.map (fun initial => [initial]) initials).

(** The code points of a text of ASCII characters. *)
Definition text_of (s : string) : str :=
  List.map Ascii.N_of_ascii (list_ascii_of_string s).

End WordCount.

(** * Properties of the finger game *)

Import FingerGame.

(** *** The beats-relation *)

Lemma pair_in_spec (p : Finger * Finger) (seq : list (Finger * Finger)) :
  pair_in p seq = true <-> In p seq.
Proof.
  unfold pair_in. rewrite List.existsb_exists. split.
  - intros [q [Hq Heq]]. apply andb_prop in Heq as [H1 H2].
    apply String.eqb_eq in H1, H2. destruct p, q; simpl in *; subst; exact Hq.
  - intros Hp. exists p. split; [exact Hp|].
    now rewrite !String.eqb_refl.
Qed.

Lemma pair_in_false (p : Finger * Finger) (seq : list (Finger * Finger)) :
  pair_in p seq = false <-> ~ In p seq.
Proof.
  rewrite <- pair_in_spec. destruct (pair_in p seq); split; congruence.
Qed.

Lemma str_in_spec (x : string) (seq : list string) :
  str_in x seq = true <-> In x seq.
Proof.
  unfold str_in. rewrite List.existsb_exists. split.
  - intros [y [Hy Heq]]. apply String.eqb_eq in Heq. now subst.
  - intros Hx. exists x. split; [exact Hx | apply String.eqb_refl].
Qed.

(** Case analysis on a member of a list given by extension. *)
Ltac each_member H :=
  repeat (destruct H as [H | H]; [subst | ]); try contradiction.

(** Membership in a list given by extension, the member possibly unknown. *)
Ltac pick_member := simpl; repeat (first [left; reflexivity | right]).

Lemma beats_asymmetric (a b : Finger) :
  In (a, b) win_lose_pairs -> ~ In (b, a) win_lose_pairs.
Proof.
  intros H. each_member H; inversion H; subst; clear H;
    apply pair_in_false; reflexivity.
Qed.

Lemma beats_irreflexive (a : Finger) : ~ In (a, a) win_lose_pairs.
Proof.
  intros H. each_member H; inversion H as [[H1 H2]]; subst; discriminate H2.
Qed.

Lemma scan_pairs_sound (pairs : list (Finger * Finger)) (f w : Finger) :
  scan_pairs pairs f = Ok w -> In (w, f) pairs.
Proof.
  induction pairs as [|[win lose] rest IH]; simpl; [discriminate|].
  destruct (String.eqb_spec lose f) as [->|Hne].
  - intros [= ->]. now left.
  - intros H. right. now apply IH.
Qed.

Lemma get_winning_finger_sound (f w : Finger) :
  get_winning_finger f = Ok w -> In (w, f) win_lose_pairs.
Proof. apply scan_pairs_sound. Qed.

Lemma beats_among_fingers (w l : Finger) :
  In (w, l) win_lose_pairs -> In w available_fingers /\ In l available_fingers.
Proof.
  intros H. each_member H; inversion H; subst; split; apply str_in_spec; reflexivity.
Qed.

(** C4.  In [win_lose_pairs] every finger is the winner of exactly one pair
    and the loser of exactly one pair: exactly one finger beats it, it beats
    exactly one finger, which is another one, and going from a finger to the
    finger that beats it comes back to the start after five steps and not
    before, so the relation is one directed cycle through the five fingers. *)
Theorem beats_relation_is_a_5_cycle (f : Finger) :
  In f available_fingers ->
  List.length (List.filter (fun p => String.eqb (fst p) f) win_lose_pairs) = 1%nat /\
  List.length (List.filter (fun p => String.eqb (snd p) f) win_lose_pairs) = 1%nat /\
  (exists! g, In (g, f) win_lose_pairs) /\
  (exists! h, In (f, h) win_lose_pairs /\ h <> f) /\
  (forall h, In (f, h) win_lose_pairs -> h <> f /\ In h available_fingers) /\
  climb 5 f = Ok f /\
  (forall k, (0 < k < 5)%nat -> climb k f <> Ok f).
Proof.
  intros Hf.
  assert (Hother : forall h, In (f, h) win_lose_pairs -> h <> f /\ In h available_fingers).
  { intros h Hh. split.
    - intros ->. exact (beats_irreflexive _ Hh).
    - exact (proj2 (beats_among_fingers _ _ Hh)). }
  repeat split.
  - each_member Hf; reflexivity.
  - each_member Hf; reflexivity.
  - each_member Hf;
      (eexists; split;
       [ pick_member
       | intros g Hg; each_member Hg; inversion Hg; subst; reflexivity ]).
  - each_member Hf;
      (eexists; split;
       [ split; [pick_member | discriminate]
       | intros h [Hh _]; each_member Hh; inversion Hh; subst; reflexivity ]).
  - exact (proj1 (Hother h H)).
  - exact (proj2 (Hother h H)).
  - each_member Hf; reflexivity.
  - intros k Hk.
    assert (Hcases : k = 1%nat \/ k = 2%nat \/ k = 3%nat \/ k = 4%nat) by lia.
    destruct Hcases as [->|[->|[->| ->]]]; each_member Hf; discriminate.
Qed.

Lemma beats_relation_is_a_5_cycle_witness :
  In "中指" available_fingers /\ climb 5 "中指" = Ok "中指".
Proof.
  split.
  - apply str_in_spec. reflexivity.
  - apply (beats_relation_is_a_5_cycle "中指"). apply str_in_spec. reflexivity.
Defined.

Lemma winning_finger_exists (f : Finger) :
  In f available_fingers ->
  exists w, get_winning_finger f = Ok w /\
            In (w, f) win_lose_pairs /\ In w available_fingers.
Proof.
  intros Hf.
  assert (H : exists w, get_winning_finger f = Ok w).
  { each_member Hf; eexists; reflexivity. }
  destruct H as [w Hw]. exists w. split; [exact Hw|].
  pose proof (get_winning_finger_sound _ _ Hw) as Hin.
  split; [exact Hin | exact (proj1 (beats_among_fingers _ _ Hin))].
Qed.

(** C2.  For each of the five fingers the scan of [win_lose_pairs] for a pair
    whose loser is that finger returns: it yields a finger, the winner of
    such a pair, and the assertion after the loop is not reached. *)
Theorem get_winning_finger_succeeds (f : Finger) :
  In f available_fingers ->
  (exists w, get_winning_finger f = Ok w /\
             In (w, f) win_lose_pairs /\ In w available_fingers) /\
  get_winning_finger f <> Raise AssertionError.
Proof.
  intros Hf. pose proof (winning_finger_exists f Hf) as H. split; [exact H|].
  destruct H as [w [Hw _]]. rewrite Hw. discriminate.
Qed.

Lemma get_winning_finger_succeeds_witness :
  In "拇指" available_fingers /\
  get_winning_finger "拇指" <> Raise AssertionError.
Proof.
  assert (Hf : In "拇指" available_fingers) by (apply str_in_spec; reflexivity).
  split; [exact Hf|].
  exact (proj2 (get_winning_finger_succeeds "拇指" Hf)).
Defined.

(** The assertion is there for the other strings. *)
Example get_winning_finger_of_no_finger :
  get_winning_finger exit_str = Raise AssertionError.
Proof. reflexivity. Qed.

(** *** The judge *)

Lemma classify_win (u c : Finger) :
  classify u c = Win <-> In (u, c) win_lose_pairs.
Proof.
  unfold classify. rewrite <- pair_in_spec.
  destruct (pair_in (u, c) win_lose_pairs); [tauto|].
  destruct (pair_in (c, u) win_lose_pairs); split; discriminate.
Qed.

Lemma classify_lose (u c : Finger) :
  classify u c = Lose <-> In (c, u) win_lose_pairs.
Proof.
  unfold classify.
  destruct (pair_in (u, c) win_lose_pairs) eqn:Huc.
  - apply pair_in_spec in Huc. split; [discriminate|].
    intros Hcu. destruct (beats_asymmetric _ _ Huc Hcu).
  - rewrite <- pair_in_spec.
    destruct (pair_in (c, u) win_lose_pairs); split; congruence.
Qed.

Lemma classify_draw (u c : Finger) :
  classify u c = Draw <->
  ~ In (u, c) win_lose_pairs /\ ~ In (c, u) win_lose_pairs.
Proof.
  unfold classify. rewrite <- !pair_in_false.
  destruct (pair_in (u, c) win_lose_pairs);
    destruct (pair_in (c, u) win_lose_pairs); intuition congruence.
Qed.

(** C1, as the code has it.  For two fingers the judge announces a win
    exactly when the user's finger beats the computer's, a loss exactly when
    the computer's beats the user's, and a draw exactly when neither beats
    the other; equal fingers draw.  The flags passed to [update_stats] are
    those of the announced outcome. *)
Theorem judge_classifies (u c : Finger) :
  In u available_fingers -> In c available_fingers ->
  (classify u c = Win <-> In (u, c) win_lose_pairs) /\
  (classify u c = Lose <-> In (c, u) win_lose_pairs) /\
  (classify u c = Draw <->
     ~ In (u, c) win_lose_pairs /\ ~ In (c, u) win_lose_pairs) /\
  (u = c -> classify u c = Draw) /\
  (forall self,
     judge self u c =
     ([ComputerChose c; Announce (classify u c)],
      update_stats self u (is_win (classify u c)) (is_draw (classify u c))
        (is_lose (classify u c)))).
Proof.
  intros _ _. split; [apply classify_win|]. split; [apply classify_lose|].
  split; [apply classify_draw|]. split.
  - intros ->. apply classify_draw. split; apply beats_irreflexive.
  - intros self. unfold judge. destruct (classify u c); reflexivity.
Qed.

Lemma judge_classifies_witness :
  In "拇指" available_fingers /\ In "食指" available_fingers /\
  (classify "拇指" "食指" = Win <-> In ("拇指", "食指") win_lose_pairs).
Proof.
  assert (Hu : In "拇指" available_fingers) by (apply str_in_spec; reflexivity).
  assert (Hc : In "食指" available_fingers) by (apply str_in_spec; reflexivity).
  split; [exact Hu|]. split; [exact Hc|].
  exact (proj1 (judge_classifies "拇指" "食指" Hu Hc)).
Defined.

(** C1, as it is written, asks that a draw be between equal fingers.  The
    thumb and the middle finger are not neighbours in the cycle: neither
    beats the other, and the judge announces a draw. *)
Lemma draw_between_distinct_fingers :
  In "拇指" available_fingers /\ In "中指" available_fingers /\
  ~ (classify "拇指" "中指" = Draw -> "拇指" = "中指").
Proof.
  split; [apply str_in_spec; reflexivity|].
  split; [apply str_in_spec; reflexivity|].
  intros H. specialize (H eq_refl). discriminate H.
Qed.

(** *** The statistics *)

Lemma dict_incr_keys (d d' : dict) (k : Finger) :
  dict_incr d k = Ok d' -> dict_keys d' = dict_keys d /\ In k (dict_keys d).
Proof.
  revert d'. induction d as [|[k' v] rest IH]; simpl; intros d'; [discriminate|].
  destruct (String.eqb_spec k' k) as [->|Hne].
  - intros [= <-]. simpl. auto.
  - destruct (dict_incr rest k) as [rest'|e]; simpl; [|discriminate].
    intros [= <-]. destruct (IH rest' eq_refl) as [Hk Hin].
    simpl. rewrite Hk. auto.
Qed.

Lemma dict_incr_total (d : dict) (k : Finger) :
  In k (dict_keys d) -> exists d', dict_incr d k = Ok d'.
Proof.
  induction d as [|[k' v] rest IH]; simpl; [contradiction|].
  intros Hin. destruct (String.eqb_spec k' k) as [->|Hne]; [eauto|].
  destruct Hin as [Heq|Hin]; [contradiction|].
  destruct (IH Hin) as [rest' ->]. simpl. eauto.
Qed.

Lemma dict_incr_get (d d' : dict) (k g : Finger) :
  dict_incr d k = Ok d' ->
  dict_get d' g =
  match dict_get d g with
  | Some v => Some (v + (if String.eqb g k then 1 else 0))
  | None => None
  end.
Proof.
  revert d'. induction d as [|[k' v] rest IH]; simpl; intros d'; [discriminate|].
  destruct (String.eqb_spec k' k) as [->|Hne].
  - intros [= <-]. simpl. destruct (String.eqb_spec k g) as [->|Hkg].
    + now rewrite String.eqb_refl.
    + destruct (dict_get rest g); [|reflexivity].
      destruct (String.eqb_spec g k) as [->|_]; [contradiction|].
      now rewrite Z.add_0_r.
  - destruct (dict_incr rest k) as [rest'|e]; simpl; [|discriminate].
    intros [= <-]. simpl. destruct (String.eqb_spec k' g) as [->|Hkg].
    + destruct (String.eqb_spec g k) as [->|_]; [contradiction|].
      now rewrite Z.add_0_r.
    + now apply IH.
Qed.

(** What a call of [update_stats] that returns has done. *)
Lemma update_stats_returns (self self' : Statistics) (f : Finger) (win draw lose : bool) :
  exactly_one win draw lose ->
  update_stats self f win draw lose = Ok self' ->
  total_turn self' = total_turn self + 1 /\
  win_turn self' = win_turn self + b2z win /\
  lose_turn self' = lose_turn self + b2z lose /\
  draw_turn self' = draw_turn self + b2z draw /\
  last_user_finger self' = Some f /\
  last_user_win self' = win /\
  (if last_user_win self
   then dict_incr (user_finger_after_winning self) f = Ok (user_finger_after_winning self')
   else user_finger_after_winning self' = user_finger_after_winning self).
Proof.
  intros Hone. unfold update_stats.
  destruct Hone as [(-> & -> & ->)|[(-> & -> & ->)|(-> & -> & ->)]]; simpl;
    destruct (last_user_win self); simpl;
    try (destruct (dict_incr (user_finger_after_winning self) f) as [d|e]; simpl;
         [|discriminate]);
    intros [= <-]; simpl; repeat split; lia.
Qed.

Lemma reachable_keys (n : nat) (self : Statistics) :
  reachable_in n self -> dict_keys (user_finger_after_winning self) = available_fingers.
Proof.
  induction 1 as [|n self self' f win draw lose _ IH Hone Hup]; [reflexivity|].
  destruct (update_stats_returns _ _ _ _ _ _ Hone Hup) as (_ & _ & _ & _ & _ & _ & Hd).
  destruct (last_user_win self).
  - destruct (dict_incr_keys _ _ _ Hd) as [-> _]. exact IH.
  - now rewrite Hd.
Qed.

(** With a finger of the game and exactly one flag, [update_stats] returns
    in every state a game can reach. *)
Lemma update_stats_total (self : Statistics) (f : Finger) (win draw lose : bool) :
  reachable self -> In f available_fingers -> exactly_one win draw lose ->
  exists self', update_stats self f win draw lose = Ok self'.
Proof.
  intros [n Hr] Hf Hone. apply reachable_keys in Hr.
  destruct (dict_incr_total (user_finger_after_winning self) f) as [d Hd].
  { now rewrite Hr. }
  unfold update_stats.
  destruct Hone as [(-> & -> & ->)|[(-> & -> & ->)|(-> & -> & ->)]]; simpl;
    destruct (last_user_win self); simpl; rewrite ?Hd; simpl; eauto.
Qed.

(** C3.  After [n] calls of [update_stats] from the initial state, each with
    exactly one of the three flags, [total_turn] is [n] and is the sum of
    [win_turn], [lose_turn] and [draw_turn]. *)
Theorem total_turn_is_sum (n : nat) (self : Statistics) :
  reachable_in n self ->
  total_turn self = Z.of_nat n /\
  total_turn self = win_turn self + lose_turn self + draw_turn self.
Proof.
  induction 1 as [|n self self' f win draw lose _ [IHn IHsum] Hone Hup].
  - split; reflexivity.
  - destruct (update_stats_returns _ _ _ _ _ _ Hone Hup)
      as (Ht & Hw & Hl & Hd & _).
    rewrite Ht, Hw, Hl, Hd.
    split; [lia|].
    destruct Hone as [(-> & -> & ->)|[(-> & -> & ->)|(-> & -> & ->)]];
      unfold b2z; lia.
Qed.

Lemma after_a_win_reachable : reachable_in 1 after_a_win.
Proof.
  apply (reach_update 0 init after_a_win "拇指" true false false).
  - constructor.
  - left. auto.
  - reflexivity.
Defined.

Lemma after_a_win_and_a_loss_reachable : reachable_in 2 after_a_win_and_a_loss.
Proof.
  apply (reach_update 1 after_a_win after_a_win_and_a_loss "小指" false false true).
  - exact after_a_win_reachable.
  - right. right. auto.
  - reflexivity.
Defined.

(** The first round of the design document: the thumb against the index. *)
Example first_round_won :
  judge init "拇指" "食指" = ([ComputerChose "食指"; Announce Win], Ok after_a_win).
Proof. reflexivity. Qed.

Lemma total_turn_is_sum_witness :
  reachable_in 2 after_a_win_and_a_loss /\
  total_turn after_a_win_and_a_loss = 2 /\
  total_turn after_a_win_and_a_loss =
    win_turn after_a_win_and_a_loss + lose_turn after_a_win_and_a_loss
    + draw_turn after_a_win_and_a_loss.
Proof.
  split; [exact after_a_win_and_a_loss_reachable|].
  exact (total_turn_is_sum 2 after_a_win_and_a_loss after_a_win_and_a_loss_reachable).
Defined.

Lemma dict_get_key (d : dict) (k : Finger) :
  In k (dict_keys d) -> exists v, dict_get d k = Some v.
Proof.
  induction d as [|[k' v] rest IH]; simpl; [contradiction|].
  intros [->|Hin].
  - rewrite String.eqb_refl. eauto.
  - destruct (String.eqb k' k); eauto.
Qed.

Lemma after_winning_get_step (self self' : Statistics) (f g : Finger)
    (win draw lose : bool) :
  exactly_one win draw lose ->
  update_stats self f win draw lose = Ok self' ->
  In g (dict_keys (user_finger_after_winning self)) ->
  after_winning_get self' g =
  after_winning_get self g + (if last_user_win self && String.eqb g f then 1 else 0).
Proof.
  intros Hone Hup Hg.
  destruct (update_stats_returns _ _ _ _ _ _ Hone Hup) as (_ & _ & _ & _ & _ & _ & Hd).
  unfold after_winning_get. destruct (last_user_win self); simpl.
  - rewrite (dict_incr_get _ _ _ g Hd).
    destruct (dict_get_key _ _ Hg) as [v ->]. reflexivity.
  - rewrite Hd. lia.
Qed.

(** In a reachable state the sum over the fingers and the last-win flag
    account for every win. *)
Lemma after_winning_sum_exact (n : nat) (self : Statistics) :
  reachable_in n self ->
  after_winning_sum self + b2z (last_user_win self) = win_turn self.
Proof.
  induction 1 as [|n self self' f win draw lose Hr IH Hone Hup]; [reflexivity|].
  pose proof (reachable_keys _ _ Hr) as Hkeys.
  destruct (update_stats_returns _ _ _ _ _ _ Hone Hup)
    as (_ & Hw & _ & _ & _ & Hlw & Hd).
  rewrite Hw, Hlw, <- IH.
  assert (Hstep : forall g, In g available_fingers ->
            after_winning_get self' g =
            after_winning_get self g
            + (if last_user_win self && String.eqb g f then 1 else 0)).
  { intros g Hg. apply (after_winning_get_step _ _ _ _ _ _ _ Hone Hup).
    now rewrite Hkeys. }
  assert (Hf : last_user_win self = true -> In f available_fingers).
  { intros Hlast. rewrite Hlast in Hd.
    rewrite <- Hkeys. exact (proj2 (dict_incr_keys _ _ _ Hd)). }
  unfold after_winning_sum, available_fingers in *. simpl.
  rewrite !Hstep by pick_member.
  destruct (last_user_win self); simpl; [|lia].
  specialize (Hf eq_refl). each_member Hf; simpl; lia.
Qed.

(** C7.  In every reachable state the sum over the fingers of
    [user_finger_after_winning] is at most [win_turn]; and a call of
    [update_stats] adds one to the entry of the finger played exactly when
    the flag [last_user_win] was set before the call, whatever outcome the
    call records, and leaves the other entries as they were. *)
Theorem after_winning_sum_at_most_wins (self : Statistics) :
  reachable self ->
  after_winning_sum self <= win_turn self /\
  (forall f g win draw lose self',
     exactly_one win draw lose ->
     update_stats self f win draw lose = Ok self' ->
     In g available_fingers ->
     after_winning_get self' g =
     after_winning_get self g
     + (if last_user_win self && String.eqb g f then 1 else 0)) /\
  (forall f win draw lose self',
     exactly_one win draw lose ->
     update_stats self f win draw lose = Ok self' ->
     last_user_win self' = win).
Proof.
  intros [n Hr]. split; [|split].
  - pose proof (after_winning_sum_exact _ _ Hr) as H.
    destruct (last_user_win self); unfold b2z in H; lia.
  - intros f g win draw lose self' Hone Hup Hg.
    apply (after_winning_get_step _ _ _ _ _ _ _ Hone Hup).
    now rewrite (reachable_keys _ _ Hr).
  - intros f win draw lose self' Hone Hup.
    exact (proj1 (proj2 (proj2 (proj2 (proj2 (proj2
             (update_stats_returns _ _ _ _ _ _ Hone Hup))))))).
Qed.

Lemma after_winning_sum_at_most_wins_witness :
  reachable after_a_win_and_a_loss /\
  after_winning_sum after_a_win_and_a_loss <= win_turn after_a_win_and_a_loss.
Proof.
  assert (Hr : reachable after_a_win_and_a_loss).
  { exists 2%nat. exact after_a_win_and_a_loss_reachable. }
  split; [exact Hr|].
  exact (proj1 (after_winning_sum_at_most_wins after_a_win_and_a_loss Hr)).
Defined.

(** After a win the little finger is played: its entry goes up by one. *)
Example little_finger_after_a_win :
  after_winning_get after_a_win "小指" = 0 /\
  after_winning_get after_a_win_and_a_loss "小指" = 1.
Proof. split; reflexivity. Qed.

(** *** The loop of [start] *)

Lemma printed_before_ret (out : list event) (r : run) :
  printed_before out (Dist.ret r) = Dist.ret (out ++ fst r, snd r).
Proof. reflexivity. Qed.

Lemma printed_before_twice (a b : list event) (d : Dist.dist run) :
  printed_before a (printed_before b d) = printed_before (a ++ b) d.
Proof.
  unfold printed_before. rewrite List.map_map. apply List.map_ext.
  intros [[out r] p]. simpl. now rewrite List.app_assoc.
Qed.

(** One turn of the loop as the source writes it: [__get_input], the test
    for the exit token, then the round and the next turn. *)
Lemma game_loop_unfold (self : Statistics) (stdin : list string) :
  game_loop self stdin =
  match get_input stdin with
  | (out, Raise e) => Dist.ret (out, Raise e)
  | (out, Ok (user_input, rest)) =>
      if String.eqb user_input exit_str then Dist.ret (out, Ok self)
      else
        printed_before out
          (Dist.bind (round self user_input) (fun r =>
             match snd r with
             | Raise e => Dist.ret r
             | Ok self' => printed_before (fst r) (game_loop self' rest)
             end))
  end.
Proof.
  induction stdin as [|line rest IH]; simpl; [reflexivity|].
  destruct (valid_input line); [reflexivity|].
  rewrite IH. destruct (get_input rest) as [out [[user_input rest']|e]]; simpl.
  - destruct (String.eqb user_input exit_str).
    + reflexivity.
    + apply printed_before_twice.
  - reflexivity.
Qed.

Lemma get_input_prints_prompts (stdin : list string) (ev : event) :
  In ev (fst (get_input stdin)) -> ev = Prompt \/ ev = ErrorPrompt.
Proof.
  induction stdin as [|line rest IH]; simpl.
  - intros [<-|[]]. now left.
  - destruct (valid_input line); simpl.
    + intros [<-|[]]. now left.
    + destruct (get_input rest) as [out r]. simpl in *.
      intros [<-|[<-|Hin]]; auto.
Qed.

(** [__get_input] returns a line it accepts, or stops at the end of the
    input. *)
Lemma get_input_valid (stdin : list string) (out : list event)
    (user_input : string) (rest : list string) :
  get_input stdin = (out, Ok (user_input, rest)) -> valid_input user_input = true.
Proof.
  revert out. induction stdin as [|line tl IH]; simpl; intros out; [discriminate|].
  destruct (valid_input line) eqn:Hv.
  - intros [= _ <- _]. exact Hv.
  - destruct (get_input tl) as [out' r]. intros [= _ ->]. now apply (IH out').
Qed.

(** C8.  When the line that [__get_input] returns is the exit token, the loop
    ends there, in whatever state the statistics are: the run is the single
    outcome in which nothing was drawn from the random source, nothing was
    printed but the prompts of [__get_input] (no choice of the computer, no
    outcome), and the statistics are the ones the turn started with. *)
Theorem exit_ends_the_game (self : Statistics) (stdin rest : list string)
    (out : list event) :
  get_input stdin = (out, Ok (exit_str, rest)) ->
  game_loop self stdin = Dist.ret (out, Ok self) /\
  start self stdin = Dist.ret (Banner :: out, Ok self) /\
  (forall ev, In ev out -> ev = Prompt \/ ev = ErrorPrompt).
Proof.
  intros Hin.
  assert (Hloop : game_loop self stdin = Dist.ret (out, Ok self)).
  { rewrite game_loop_unfold, Hin. reflexivity. }
  split; [exact Hloop|]. split.
  - unfold start. rewrite Hloop. reflexivity.
  - intros ev Hev. apply (get_input_prints_prompts stdin). now rewrite Hin.
Qed.

Lemma exit_ends_the_game_witness :
  get_input ["thumb"; "exit"; "拇指"] = ([Prompt; ErrorPrompt; Prompt], Ok (exit_str, ["拇指"])) /\
  game_loop after_a_win ["thumb"; "exit"; "拇指"] =
    Dist.ret ([Prompt; ErrorPrompt; Prompt], Ok after_a_win).
Proof.
  split; [reflexivity|].
  apply (exit_ends_the_game after_a_win ["thumb"; "exit"; "拇指"] ["拇指"]).
  reflexivity.
Defined.

(** * Probabilities *)

Section DistFacts.
Context {A : Type}.
Implicit Types (P : A -> bool) (d : Dist.dist A) (p : Q).

Lemma prob_cons P (a : A) p d :
  (Dist.prob P ((a, p) :: d) == (if P a then p else 0) + Dist.prob P d)%Q.
Proof.
  unfold Dist.prob, Dist.weight. simpl. destruct (P a); simpl; ring.
Qed.

Lemma prob_app P d1 d2 :
  (Dist.prob P (d1 ++ d2) == Dist.prob P d1 + Dist.prob P d2)%Q.
Proof.
  induction d1 as [|[a p] d1 IH]; simpl.
  - unfold Dist.prob at 2, Dist.weight. simpl. ring.
  - rewrite !prob_cons, IH. ring.
Qed.

Lemma prob_scale P p d :
  (Dist.prob P (Dist.scale p d) == p * Dist.prob P d)%Q.
Proof.
  induction d as [|[a q] d IH]; simpl.
  - unfold Dist.prob, Dist.weight. simpl. ring.
  - rewrite !prob_cons, IH. simpl. destruct (P a); ring.
Qed.

Lemma prob_ret P (a : A) :
  (Dist.prob P (Dist.ret a) == if P a then 1 else 0)%Q.
Proof. unfold Dist.ret. rewrite prob_cons. unfold Dist.prob, Dist.weight. simpl. ring. Qed.

(** [random.random() < p] holds with probability [p]. *)
Lemma prob_random_lt p (k : bool -> Dist.dist A) P :
  (Dist.prob P (Dist.bind (Dist.random_lt p) k)
   == p * Dist.prob P (k true) + (1 - p) * Dist.prob P (k false))%Q.
Proof.
  unfold Dist.bind, Dist.random_lt. simpl.
  rewrite !prob_app, !prob_scale. unfold Dist.prob at 3, Dist.weight. simpl. ring.
Qed.
End DistFacts.

Section ChoiceFacts.
Context {A : Type}.

Lemma prob_equal_weights (P : result A -> bool) (w : Q) (seq : list A) :
  (Dist.prob P (List.map (fun a => (Ok a, w)) seq)
   == inject_Z (Dist.favourable P seq) * w)%Q.
Proof.
  unfold Dist.favourable. induction seq as [|a seq IH]; simpl.
  - unfold Dist.prob, Dist.weight. simpl. ring.
  - rewrite prob_cons, IH. destruct (P (Ok a)); simpl List.length.
    + rewrite Nat2Z.inj_succ, <- Z.add_1_r, inject_Z_plus. ring.
    + ring.
Qed.

(** [random.choice] gives each position of a sequence that is not empty
    the same probability. *)
Lemma prob_choice (P : result A -> bool) (seq : list A) :
  seq <> [] ->
  (Dist.prob P (Dist.choice seq)
   == inject_Z (Dist.favourable P seq) / inject_Z (Z.of_nat (List.length seq)))%Q.
Proof.
  destruct seq as [|a seq]; [congruence|]. intros _.
  unfold Dist.choice. rewrite prob_equal_weights. field.
  change 0%Q with (inject_Z 0). rewrite inject_Z_injective. simpl List.length. lia.
Qed.

(** [random.choice] followed by a function of the element chosen. *)
Lemma prob_bind_ret {B : Type} (P : B -> bool) (h : A -> B) (d : Dist.dist A) :
  (Dist.prob P (Dist.bind d (fun a => Dist.ret (h a)))
   == Dist.prob (fun a => P (h a)) d)%Q.
Proof.
  induction d as [|[a p] d IH].
  - reflexivity.
  - change (Dist.bind ((a, p) :: d) (fun a => Dist.ret (h a)))
      with ((h a, (p * 1)%Q) :: Dist.bind d (fun a => Dist.ret (h a))).
    rewrite !prob_cons, IH. simpl. destruct (P (h a)); ring.
Qed.
End ChoiceFacts.

(** * The opponent predictor *)

Lemma available_fingers_NoDup : List.NoDup available_fingers.
Proof.
  unfold available_fingers.
  repeat (apply List.NoDup_cons; [intros H; each_member H; discriminate H|]).
  apply List.NoDup_nil.
Qed.

Lemma differs_spec (f : Finger) (last : option Finger) :
  differs f last = true <-> last <> Some f.
Proof.
  destruct last as [l|]; simpl.
  - destruct (String.eqb_spec f l) as [->|Hne]; simpl; split; congruence.
  - split; [discriminate | reflexivity].
Qed.

Lemma favourable_one (f : Finger) (seq : list Finger) :
  List.NoDup seq -> In f seq -> Dist.favourable (is_finger f) seq = 1.
Proof.
  unfold Dist.favourable. induction 1 as [|x seq Hx Hnd IH]; simpl; [contradiction|].
  destruct (String.eqb_spec x f) as [->|Hne].
  - intros _. simpl List.length.
    assert (Hnone : List.filter (fun a => is_finger f (Ok a)) seq = []).
    { clear IH Hnd. induction seq as [|y seq IH]; simpl; [reflexivity|].
      destruct (String.eqb_spec y f) as [->|_].
      - destruct Hx. now left.
      - apply IH. intros H. apply Hx. now right. }
    simpl in Hnone. now rewrite Hnone.
  - intros [Heq|Hin]; [contradiction|]. now apply IH.
Qed.

(** A finger of a sequence without repetition comes out of [random.choice]
    with probability one over the length. *)
Lemma choice_uniform (f : Finger) (seq : list Finger) :
  List.NoDup seq -> In f seq ->
  (Dist.prob (is_finger f) (Dist.choice seq)
   == 1 / inject_Z (Z.of_nat (List.length seq)))%Q.
Proof.
  intros Hnd Hin. rewrite prob_choice.
  - now rewrite (favourable_one _ _ Hnd Hin).
  - intros ->. destruct Hin.
Qed.

Lemma remaining_fingers_spec (self : Statistics) (f : Finger) :
  In f (remaining_fingers self) <->
  In f available_fingers /\ last_user_finger self <> Some f.
Proof.
  unfold remaining_fingers. rewrite List.filter_In, differs_spec. reflexivity.
Qed.

(** Some finger differs from the one played last. *)
Lemma remaining_fingers_nonempty (self : Statistics) : remaining_fingers self <> [].
Proof.
  intros Hnil.
  assert (H1 : ~ In "拇指" (remaining_fingers self)) by (rewrite Hnil; auto).
  assert (H2 : ~ In "食指" (remaining_fingers self)) by (rewrite Hnil; auto).
  rewrite remaining_fingers_spec in H1, H2.
  apply H1. split; [pick_member|].
  intros Hlast. apply H2. split; [pick_member|].
  rewrite Hlast. discriminate.
Qed.

Lemma beat_one_of_prob (P : result Finger -> bool) (seq : list Finger) :
  (Dist.prob P (beat_one_of seq)
   == Dist.prob (fun r => P (do f <- r; get_winning_finger f)) (Dist.choice seq))%Q.
Proof. unfold beat_one_of. apply prob_bind_ret. Qed.

(** C5.  When the round before was not won by the user, with probability
    3/4 the computer answers a predicted finger: the prediction is drawn by
    [random.choice] from the fingers that differ from the finger the user
    played last, each of them with the same probability; before the first
    round, when no finger was played yet, these are all five fingers, each
    with probability 1/5; and what the computer plays is the finger that
    beats the prediction.  With the remaining probability 1/4 the computer
    draws from all five fingers. *)
Theorem predictor_after_no_win (self : Statistics) :
  last_user_win self = false ->
  (forall P,
     (Dist.prob P (get_computer_choice self)
      == (3 # 4) * Dist.prob P (beat_one_of (remaining_fingers self))
         + (1 # 4) * Dist.prob P (Dist.choice available_fingers))%Q) /\
  (forall f, In f (remaining_fingers self) <->
             In f available_fingers /\ last_user_finger self <> Some f) /\
  List.NoDup (remaining_fingers self) /\
  (forall f, In f (remaining_fingers self) ->
     (Dist.prob (is_finger f) (Dist.choice (remaining_fingers self))
      == 1 / inject_Z (Z.of_nat (List.length (remaining_fingers self))))%Q) /\
  (last_user_finger self = None ->
     remaining_fingers self = available_fingers /\
     forall f, In f available_fingers ->
       (Dist.prob (is_finger f) (Dist.choice (remaining_fingers self)) == 1 # 5)%Q) /\
  (forall P,
     (Dist.prob P (beat_one_of (remaining_fingers self))
      == Dist.prob (fun r => P (do f <- r; get_winning_finger f))
           (Dist.choice (remaining_fingers self)))%Q) /\
  (forall f, In f (remaining_fingers self) ->
     exists w, get_winning_finger f = Ok w /\ In (w, f) win_lose_pairs).
Proof.
  intros Hlast.
  assert (Hnd : List.NoDup (remaining_fingers self)).
  { apply List.NoDup_filter, available_fingers_NoDup. }
  split; [|split; [|split; [|split; [|split; [|split]]]]].
  - intros P. unfold get_computer_choice. rewrite Hlast, prob_random_lt.
    assert (H34 : (75 # 100 == 3 # 4)%Q) by reflexivity.
    assert (H14 : (1 - (75 # 100) == 1 # 4)%Q) by reflexivity.
    now rewrite H14, H34.
  - apply remaining_fingers_spec.
  - exact Hnd.
  - intros f Hf. now apply choice_uniform.
  - intros Hnone.
    assert (Hall : remaining_fingers self = available_fingers).
    { unfold remaining_fingers. rewrite Hnone. reflexivity. }
    split; [exact Hall|].
    intros f Hf. rewrite Hall.
    rewrite (choice_uniform f available_fingers available_fingers_NoDup Hf).
    reflexivity.
  - intros P. apply beat_one_of_prob.
  - intros f Hf. apply remaining_fingers_spec in Hf as [Hf _].
    destruct (winning_finger_exists f Hf) as [w (Hw & Hin & _)]. eauto.
Qed.

Lemma predictor_after_no_win_witness :
  last_user_win init = false /\
  remaining_fingers init = available_fingers /\
  (Dist.prob (is_finger "小指") (Dist.choice (remaining_fingers init)) == 1 # 5)%Q.
Proof.
  split; [reflexivity|].
  destruct (predictor_after_no_win init eq_refl) as (_ & _ & _ & _ & Hfirst & _).
  destruct (Hfirst eq_refl) as [Hall Hunif].
  split; [exact Hall|].
  apply Hunif. apply str_in_spec. reflexivity.
Defined.

(** [__judge] keeps the statistics among the reachable states. *)
Lemma judge_reachable (self self' : Statistics) (u c : Finger) (out : list event) :
  reachable self -> judge self u c = (out, Ok self') -> reachable self'.
Proof.
  intros [n Hr]. unfold judge.
  destruct (classify u c); intros [= _ Hup]; exists (S n);
    eapply reach_update; try exact Hr; try exact Hup; unfold exactly_one; tauto.
Qed.

(** * The stable sort *)

Section StableSort.
Context {A : Type} `{EqDecision A} (key : A -> Z).

Lemma insert_desc_perm (x : A) (l : list A) :
  Permutation (x :: l) (insert_desc key x l).
Proof.
  induction l as [|y l IH]; simpl; [reflexivity|].
  destruct (key x <? key y); [|reflexivity].
  rewrite perm_swap. now apply perm_skip.
Qed.

Lemma sorted_desc_perm (seq : list A) : Permutation seq (sorted_desc key seq).
Proof.
  induction seq as [|x seq IH]; simpl; [reflexivity|].
  rewrite <- insert_desc_perm. now apply perm_skip.
Qed.

Lemma insert_desc_sorted (R : A -> A -> Prop) (x : A) (l : list A) :
  (forall a b, R a b -> key b <= key a) ->
  StronglySorted R l ->
  (forall y, In y l -> key y <= key x -> R x y) ->
  (forall y, In y l -> key x < key y -> R y x) ->
  StronglySorted R (insert_desc key x l).
Proof.
  intros Hkey. induction 1 as [|y l Hl IH Hy]; intros Hle Hlt; simpl.
  - constructor; [constructor | constructor].
  - destruct (Z.ltb_spec (key x) (key y)) as [Hxy|Hxy].
    + constructor.
      * apply IH; intros z Hz; [apply Hle | apply Hlt]; now right.
      * rewrite <- (insert_desc_perm x l). constructor; [|exact Hy].
        apply Hlt; [now left | exact Hxy].
    + constructor; [now constructor|].
      constructor.
      * apply Hle; [now left | exact Hxy].
      * rewrite List.Forall_forall in Hy |- *. intros z Hz.
        apply Hle; [now right|].
        specialize (Hkey _ _ (Hy z Hz)). lia.
Qed.

Lemma precedes_key (seq : list A) (a b : A) : precedes key seq a b -> key b <= key a.
Proof. intros [H|[H _]]; lia. Qed.

Lemma position_cons_other (x y : A) (seq : list A) :
  y <> x -> position y (x :: seq) = S (position y seq).
Proof. intros Hne. simpl. destruct (decide (y = x)); [contradiction | reflexivity]. Qed.

(** The sort puts the elements of a sequence without repetition in the one
    order in which each element precedes those that follow it. *)
Lemma sorted_desc_stable (seq : list A) :
  List.NoDup seq -> StronglySorted (precedes key seq) (sorted_desc key seq).
Proof.
  induction 1 as [|x seq Hx Hnd IH]; simpl; [constructor|].
  assert (Hmem : forall y, In y (sorted_desc key seq) -> In y seq /\ y <> x).
  { intros y Hy. apply (Permutation_in _ (Permutation_sym (sorted_desc_perm seq))) in Hy.
    split; [exact Hy | intros ->; contradiction]. }
  apply insert_desc_sorted.
  - apply precedes_key.
  - revert Hmem. generalize (sorted_desc key seq) IH. clear IH.
    induction 1 as [|y l Hl IHl Hy]; intros Hmem; constructor.
    + apply IHl. intros z Hz. apply Hmem. now right.
    + rewrite List.Forall_forall in Hy |- *. intros z Hz.
      destruct (Hy z Hz) as [Hlt|[Heq Hpos]]; [now left|]. right.
      split; [exact Heq|].
      rewrite !position_cons_other; [lia | |].
      * apply Hmem. now right.
      * apply Hmem. now left.
  - intros y Hy Hle. destruct (Hmem y Hy) as [_ Hne].
    destruct (Z.eq_dec (key y) (key x)) as [Heq|Hneq].
    + right. split; [exact Heq|].
      rewrite (position_cons_other x y seq Hne). simpl.
      destruct (decide (x = x)); [lia | contradiction].
    + left. lia.
  - intros y _ Hlt. now left.
Qed.

(** In a list whose elements each precede the later ones, the first [n]
    precede the rest. *)
Lemma firstn_precede_rest (R : A -> A -> Prop) (l : list A) (n : nat) (p h : A) :
  StronglySorted R l -> In p (List.firstn n l) -> In h (List.skipn n l) -> R p h.
Proof.
  intros Hs. revert n. induction Hs as [|y l Hl IH Hy]; intros n.
  - rewrite List.firstn_nil. contradiction.
  - destruct n as [|n]; simpl; [contradiction|].
    intros [<-|Hp] Hh.
    + rewrite List.Forall_forall in Hy. apply Hy.
      rewrite <- (List.firstn_skipn n l). apply List.in_or_app. now right.
    + now apply (IH n).
Qed.
End StableSort.

(** The two predicted fingers are the two first of that order. *)
Lemma predicted_fingers_top2 (self : Statistics) :
  dict_keys (user_finger_after_winning self) = available_fingers ->
  exists a b,
    predicted_fingers self = [a; b] /\
    a <> b /\ In a available_fingers /\ In b available_fingers /\
    finger_precedes self a b /\
    (forall h, In h available_fingers -> h <> a -> h <> b ->
       finger_precedes self a h /\ finger_precedes self b h).
Proof.
  intros Hkeys. unfold predicted_fingers, finger_precedes. rewrite Hkeys.
  pose proof (sorted_desc_perm (after_winning_get self) available_fingers) as Hperm.
  pose proof (sorted_desc_stable (after_winning_get self) available_fingers
                available_fingers_NoDup) as Hsorted.
  pose proof (Permutation_NoDup Hperm available_fingers_NoDup) as Hnd.
  pose proof (Permutation_length Hperm) as Hlen.
  destruct (sorted_desc (after_winning_get self) available_fingers)
    as [|a [|b rest]] eqn:Hs; try discriminate Hlen.
  exists a, b. simpl.
  assert (Hin : forall h, In h (a :: b :: rest) <-> In h available_fingers).
  { intros h. split; apply Permutation_in; [symmetry|]; exact Hperm. }
  split; [reflexivity|]. split; [|split; [|split; [|split]]].
  - intros ->. inversion Hnd as [|? ? Hnot _]. apply Hnot. now left.
  - apply Hin. now left.
  - apply Hin. right. now left.
  - apply (firstn_precede_rest _ (a :: b :: rest) 1); [exact Hsorted| |]; simpl; auto.
  - intros h Hh Ha Hb. apply Hin in Hh.
    assert (Hrest : In h rest).
    { destruct Hh as [->|[->|Hh]]; [contradiction | contradiction | exact Hh]. }
    split; apply (firstn_precede_rest _ (a :: b :: rest) 2);
      solve [exact Hsorted | exact Hrest | simpl; auto].
Qed.

(** C6.  When the round before was won by the user, with probability 4/5
    the computer answers a predicted finger: the two fingers with the most
    plays after a win are taken (among equal counts the one that comes first
    in the list of the fingers), [random.choice] draws one of the two, each
    with probability 1/2, and the computer plays the finger that beats it.
    With the remaining probability 1/5 the computer draws from all five
    fingers, each with probability 1/5. *)
Theorem predictor_after_a_win (self : Statistics) :
  reachable self ->
  last_user_win self = true ->
  (forall P,
     (Dist.prob P (get_computer_choice self)
      == (4 # 5) * Dist.prob P (beat_one_of (predicted_fingers self))
         + (1 # 5) * Dist.prob P (Dist.choice available_fingers))%Q) /\
  (exists a b,
     predicted_fingers self = [a; b] /\
     a <> b /\ In a available_fingers /\ In b available_fingers /\
     finger_precedes self a b /\
     (forall h, In h available_fingers -> h <> a -> h <> b ->
        finger_precedes self a h /\ finger_precedes self b h) /\
     (Dist.prob (is_finger a) (Dist.choice [a; b]) == 1 # 2)%Q /\
     (Dist.prob (is_finger b) (Dist.choice [a; b]) == 1 # 2)%Q /\
     (exists wa wb,
        get_winning_finger a = Ok wa /\ In (wa, a) win_lose_pairs /\
        get_winning_finger b = Ok wb /\ In (wb, b) win_lose_pairs /\
        forall P,
          (Dist.prob P (beat_one_of [a; b])
           == (1 # 2) * (if P (Ok wa) then 1 else 0)
              + (1 # 2) * (if P (Ok wb) then 1 else 0))%Q)) /\
  (forall g, In g available_fingers ->
     (Dist.prob (is_finger g) (Dist.choice available_fingers) == 1 # 5)%Q).
Proof.
  intros [n Hr] Hlast. split; [|split].
  - intros P. unfold get_computer_choice. rewrite Hlast, prob_random_lt.
    assert (H45 : (8 # 10 == 4 # 5)%Q) by reflexivity.
    assert (H15 : (1 - (8 # 10) == 1 # 5)%Q) by reflexivity.
    now rewrite H15, H45.
  - destruct (predicted_fingers_top2 self (reachable_keys _ _ Hr))
      as (a & b & Hpred & Hab & Ha & Hb & Hprec & Hrest).
    exists a, b. repeat (split; [assumption|]).
    assert (Hnd : List.NoDup [a; b]).
    { repeat constructor; simpl; intuition. }
    split; [|split].
    + rewrite (choice_uniform a [a; b] Hnd); [reflexivity | now left].
    + rewrite (choice_uniform b [a; b] Hnd); [reflexivity | right; now left].
    + destruct (winning_finger_exists a Ha) as [wa (Hwa & Hina & _)].
      destruct (winning_finger_exists b Hb) as [wb (Hwb & Hinb & _)].
      exists wa, wb. repeat (split; [assumption|]).
      intros P. unfold beat_one_of, Dist.bind, Dist.choice. simpl.
      rewrite Hwa, Hwb, !prob_cons.
      unfold Dist.prob, Dist.weight. simpl.
      destruct (P (Ok wa)); destruct (P (Ok wb)); reflexivity.
  - intros g Hg.
    rewrite (choice_uniform g available_fingers available_fingers_NoDup Hg).
    reflexivity.
Qed.

Lemma predictor_after_a_win_witness :
  reachable after_a_win /\ last_user_win after_a_win = true /\
  (Dist.prob (is_finger "小指") (Dist.choice available_fingers) == 1 # 5)%Q.
Proof.
  assert (Hr : reachable after_a_win).
  { exists 1%nat. exact after_a_win_reachable. }
  split; [exact Hr|]. split; [reflexivity|].
  destruct (predictor_after_a_win after_a_win Hr eq_refl) as (_ & _ & Hunif).
  apply Hunif. apply str_in_spec. reflexivity.
Defined.

(** After the thumb has won the first round no finger has a count yet: the
    prediction is the thumb or the index, the two first of the list, and the
    computer plays the little finger or the thumb, each with probability
    2/5 + 1/25. *)
Example predicted_after_first_win :
  predicted_fingers after_a_win = ["拇指"; "食指"] /\
  (Dist.prob (is_finger "小指") (get_computer_choice after_a_win) == 11 # 25)%Q /\
  (Dist.prob (is_finger "拇指") (get_computer_choice after_a_win) == 11 # 25)%Q /\
  (Dist.prob (is_finger "中指") (get_computer_choice after_a_win) == 1 # 25)%Q.
Proof. repeat split. Qed.

(** *** What the computer can play *)

Lemma scale_outcomes {A : Type} (p : Q) (d : Dist.dist A) :
  List.map fst (Dist.scale p d) = List.map fst d.
Proof. unfold Dist.scale. rewrite List.map_map. reflexivity. Qed.

Lemma random_lt_outcomes {A : Type} (p : Q) (k : bool -> Dist.dist A) (r : A) :
  In r (List.map fst (Dist.bind (Dist.random_lt p) k)) ->
  In r (List.map fst (k true)) \/ In r (List.map fst (k false)).
Proof.
  unfold Dist.bind, Dist.random_lt. cbn [List.flat_map fst snd].
  rewrite List.app_nil_r, List.map_app, !scale_outcomes, List.in_app_iff. tauto.
Qed.

Lemma choice_outcomes (seq : list Finger) (r : result Finger) :
  seq <> [] -> In r (List.map fst (Dist.choice seq)) ->
  exists f, r = Ok f /\ In f seq.
Proof.
  destruct seq as [|x seq]; [congruence|]. intros _. unfold Dist.choice.
  rewrite List.map_map, List.in_map_iff. intros [f [<- Hf]]. eauto.
Qed.

Lemma beat_one_of_outcomes (seq : list Finger) (r : result Finger) :
  seq <> [] -> (forall f, In f seq -> In f available_fingers) ->
  In r (List.map fst (beat_one_of seq)) ->
  exists g, r = Ok g /\ In g available_fingers.
Proof.
  intros Hne Hsub. unfold beat_one_of, Dist.bind.
  rewrite List.in_map_iff. intros [[r' p] [<- Hin]].
  apply List.in_flat_map in Hin as [[q w] [Hq Hin]]. simpl in Hin.
  destruct Hin as [[= <- _]|[]]. simpl.
  destruct (choice_outcomes seq q Hne) as [f [-> Hf]].
  { apply List.in_map_iff. now exists (q, w). }
  simpl. destruct (winning_finger_exists f (Hsub f Hf)) as [g (Hg & _ & Hav)].
  eauto.
Qed.

(** In a state that a game can reach, whatever is drawn, the computer plays
    one of the five fingers: neither [random.choice] nor the lookup of the
    finger that beats the prediction raises. *)
Lemma get_computer_choice_plays_a_finger (self : Statistics) (r : result Finger) :
  reachable self ->
  In r (List.map fst (get_computer_choice self)) ->
  exists g, r = Ok g /\ In g available_fingers.
Proof.
  intros [n Hr]. unfold get_computer_choice.
  assert (Hav : forall r, In r (List.map fst (Dist.choice available_fingers)) ->
                exists g, r = Ok g /\ In g available_fingers).
  { intros r'. apply choice_outcomes. discriminate. }
  destruct (last_user_win self) eqn:Hlast;
    (intros Hin; apply random_lt_outcomes in Hin as [Hin|Hin]; [|now apply Hav]);
    revert Hin; apply beat_one_of_outcomes.
  - destruct (predicted_fingers_top2 self (reachable_keys _ _ Hr))
      as (a & b & -> & _). discriminate.
  - destruct (predicted_fingers_top2 self (reachable_keys _ _ Hr))
      as (a & b & -> & _ & Ha & Hb & _).
    intros f [<-|[<-|[]]]; assumption.
  - apply remaining_fingers_nonempty.
  - intros f Hf. now apply remaining_fingers_spec in Hf.
Qed.

(** The weights of the outcomes add up to one. *)
Lemma get_computer_choice_total (self : Statistics) :
  reachable self ->
  (Dist.prob (fun _ => true) (get_computer_choice self) == 1)%Q.
Proof.
  intros Hr.
  assert (Hchoice : forall seq : list Finger, seq <> [] ->
            forall P : result Finger -> bool, (forall r, P r = true) ->
            (Dist.prob P (Dist.choice seq) == 1)%Q).
  { intros seq Hne P HP. rewrite prob_choice by exact Hne.
    unfold Dist.favourable.
    assert (Hall : List.filter (fun a => P (Ok a)) seq = seq).
    { apply List.forallb_filter_id, List.forallb_forall. intros; apply HP. }
    rewrite Hall. field.
    change 0%Q with (inject_Z 0). rewrite inject_Z_injective.
    destruct seq; [congruence | simpl List.length; lia]. }
  assert (Hbeat : forall seq : list Finger, seq <> [] ->
            (Dist.prob (fun _ => true) (beat_one_of seq) == 1)%Q).
  { intros seq Hne. rewrite beat_one_of_prob. now apply Hchoice. }
  assert (Hpred : predicted_fingers self <> [] /\ remaining_fingers self <> []).
  { destruct Hr as [n Hr]. split.
    - destruct (predicted_fingers_top2 self (reachable_keys _ _ Hr))
        as (a & b & -> & _). discriminate.
    - apply remaining_fingers_nonempty. }
  unfold get_computer_choice.
  destruct (last_user_win self); rewrite prob_random_lt;
    rewrite Hbeat by tauto; rewrite (Hchoice available_fingers) by (discriminate || reflexivity);
    reflexivity.
Qed.

(** * Further properties of the finger game *)

(** *** [__get_input] *)

Lemma prompts_for_S (n : nat) :
  prompts_for (S n) = Prompt :: ErrorPrompt :: prompts_for n.
Proof. reflexivity. Qed.

(** X1.  [__get_input] returns the first line it accepts and leaves the lines
    after it unread; it prints the error message once for each line it
    refused before. *)
Theorem get_input_returns_first_valid (skipped rest : list string) (line : string) :
  Forall invalid_line skipped ->
  valid_input line = true ->
  get_input (skipped ++ line :: rest) =
  (prompts_for (List.length skipped), Ok (line, rest)).
Proof.
  intros Hskipped Hline. induction Hskipped as [|x skipped Hx _ IH]; simpl.
  - now rewrite Hline.
  - unfold invalid_line in Hx. rewrite Hx, IH. reflexivity.
Qed.

Lemma get_input_returns_first_valid_witness :
  get_input (["thumb"; ""] ++ "小指" :: ["exit"]) =
  (prompts_for 2, Ok ("小指", ["exit"])).
Proof.
  apply (get_input_returns_first_valid ["thumb"; ""] ["exit"] "小指").
  - repeat constructor.
  - reflexivity.
Defined.

(** X2.  [__get_input] raises only at the end of the input, and only
    [EOFError]: then no line was acceptable and each was answered by the
    error message. *)
Theorem get_input_raises_at_end (stdin : list string) (out : list event) (e : exn) :
  get_input stdin = (out, Raise e) ->
  e = EOFError /\ Forall invalid_line stdin /\
  out = prompts_for (List.length stdin).
Proof.
  revert out. induction stdin as [|line rest IH]; simpl; intros out.
  - intros [= <- <-]. repeat split. constructor.
  - destruct (valid_input line) eqn:Hv; [discriminate|].
    destruct (get_input rest) as [out' r]. intros [= <- ->].
    destruct (IH out' eq_refl) as (-> & Hrest & ->).
    repeat split. now constructor.
Qed.

Lemma get_input_raises_at_end_witness :
  get_input ["thumb"; "Exit"] = (prompts_for 2, Raise EOFError) /\
  Forall invalid_line ["thumb"; "Exit"].
Proof.
  assert (H : get_input ["thumb"; "Exit"] = (prompts_for 2, Raise EOFError))
    by reflexivity.
  split; [exact H|].
  exact (proj1 (proj2 (get_input_raises_at_end _ _ _ H))).
Defined.

(** *** [update_stats] *)

Lemma dict_incr_raises (d : dict) (k : Finger) (e : exn) :
  dict_incr d k = Raise e -> e = KeyError /\ ~ In k (dict_keys d).
Proof.
  induction d as [|[k' v] rest IH]; simpl.
  - intros [= <-]. auto.
  - destruct (String.eqb_spec k' k) as [->|Hne]; [discriminate|].
    destruct (dict_incr rest k) as [rest'|e'] eqn:Hrest; simpl; [discriminate|].
    intros [= <-]. destruct (IH eq_refl) as [-> Hnot].
    split; [reflexivity|]. intros [Heq|Hin]; contradiction.
Qed.

Lemma dict_incr_missing (d : dict) (k : Finger) :
  ~ In k (dict_keys d) -> dict_incr d k = Raise KeyError.
Proof.
  intros Hnot. destruct (dict_incr d k) as [d'|e] eqn:H.
  - destruct Hnot. exact (proj2 (dict_incr_keys _ _ _ H)).
  - now destruct (dict_incr_raises _ _ _ H) as [-> _].
Qed.

(** X3.  [update_stats] fails in two ways and in no other: on the assertion,
    when none of the three flags is set; on a missing key, when a flag is
    set, the round before was won and the finger is not a key of
    [user_finger_after_winning]. *)
Theorem update_stats_failures (self : Statistics) (f : Finger) (win draw lose : bool) :
  (update_stats self f win draw lose = Raise AssertionError <->
   win = false /\ draw = false /\ lose = false) /\
  (update_stats self f win draw lose = Raise KeyError <->
   (win || draw || lose = true) /\ last_user_win self = true /\
   ~ In f (dict_keys (user_finger_after_winning self))) /\
  update_stats self f win draw lose <> Raise IndexError /\
  update_stats self f win draw lose <> Raise EOFError.
Proof.
  unfold update_stats.
  destruct draw, win, lose; simpl; destruct (last_user_win self); simpl;
    try (destruct (dict_incr (user_finger_after_winning self) f) as [d|e] eqn:Hd;
         simpl;
         [ pose proof (proj2 (dict_incr_keys _ _ _ Hd)) as Hin
         | destruct (dict_incr_raises _ _ _ Hd) as [-> Hin] ]);
    repeat split; intros; try discriminate; try tauto; intuition discriminate.
Qed.

(** *** [__judge] and [__get_winning_finger] *)

(** X4.  A win for one side is a loss for the other, and a draw is a draw for
    both, whatever the two strings are. *)
Theorem classify_swap (u c : Finger) :
  (classify u c = Win <-> classify c u = Lose) /\
  (classify u c = Lose <-> classify c u = Win) /\
  (classify u c = Draw <-> classify c u = Draw).
Proof.
  rewrite !classify_win, !classify_lose, !classify_draw. tauto.
Qed.

(** X5.  Against the five fingers of the computer a finger of the user wins
    once, loses once and draws three times. *)
Theorem classify_tally (u : Finger) :
  In u available_fingers ->
  List.length (List.filter (fun c => is_win (classify u c)) available_fingers) = 1%nat /\
  List.length (List.filter (fun c => is_lose (classify u c)) available_fingers) = 1%nat /\
  List.length (List.filter (fun c => is_draw (classify u c)) available_fingers) = 3%nat.
Proof. intros Hu. each_member Hu; repeat split. Qed.

Lemma classify_tally_witness :
  In "无名指" available_fingers /\
  List.length (List.filter (fun c => is_draw (classify "无名指" c)) available_fingers)
  = 3%nat.
Proof.
  assert (Hu : In "无名指" available_fingers) by pick_member.
  split; [exact Hu|].
  exact (proj2 (proj2 (classify_tally "无名指" Hu))).
Defined.

(** X6.  The finger that [__get_winning_finger] returns for a prediction wins
    when the user plays as predicted: the judge announces a loss of the
    user, and the two fingers differ. *)
Theorem winning_finger_wins (f w : Finger) :
  get_winning_finger f = Ok w ->
  classify f w = Lose /\ classify w f = Win /\ w <> f /\
  forall self, fst (judge self f w) = [ComputerChose w; Announce Lose].
Proof.
  intros Hw. apply get_winning_finger_sound in Hw.
  assert (Hlose : classify f w = Lose) by now apply classify_lose.
  split; [exact Hlose|]. split; [now apply classify_win|]. split.
  - intros ->. exact (beats_irreflexive _ Hw).
  - intros self. unfold judge. now rewrite Hlose.
Qed.

Lemma winning_finger_wins_witness :
  get_winning_finger "食指" = Ok "拇指" /\ classify "食指" "拇指" = Lose.
Proof.
  split; [reflexivity|].
  exact (proj1 (winning_finger_wins "食指" "拇指" eq_refl)).
Defined.

(** X7.  Two predictions with the same answer are the same finger, and every
    finger is the answer to the prediction of some finger. *)
Theorem get_winning_finger_bijective :
  (forall f g w, get_winning_finger f = Ok w -> get_winning_finger g = Ok w -> f = g) /\
  (forall w, In w available_fingers ->
     exists f, In f available_fingers /\ get_winning_finger f = Ok w).
Proof.
  split.
  - intros f g w Hf Hg. apply get_winning_finger_sound in Hf, Hg.
    each_member Hf; inversion Hf; subst; clear Hf;
      each_member Hg; inversion Hg; reflexivity.
  - intros w Hw.
    each_member Hw;
      [ exists "食指" | exists "中指" | exists "无名指" | exists "小指" | exists "拇指" ];
      (split; [pick_member | reflexivity]).
Qed.

(** *** The statistics of a game *)

Lemma dict_get_missing (d : dict) (k : Finger) :
  ~ In k (dict_keys d) -> dict_get d k = None.
Proof.
  induction d as [|[k' v] rest IH]; simpl; [reflexivity|].
  intros Hnot. destruct (String.eqb_spec k' k) as [->|Hne].
  - destruct Hnot. now left.
  - apply IH. intros Hin. apply Hnot. now right.
Qed.

Lemma after_winning_get_nonneg (n : nat) (self : Statistics) (f : Finger) :
  reachable_in n self -> 0 <= after_winning_get self f.
Proof.
  induction 1 as [|n self self' g win draw lose Hr IH Hone Hup].
  - destruct (List.in_dec string_dec f available_fingers) as [Hf|Hf].
    + each_member Hf; discriminate.
    + unfold after_winning_get. rewrite dict_get_missing; [lia | exact Hf].
  - destruct (update_stats_returns _ _ _ _ _ _ Hone Hup) as (_ & _ & _ & _ & _ & _ & Hd).
    unfold after_winning_get in *. destruct (last_user_win self).
    + rewrite (dict_incr_get _ _ _ f Hd).
      destruct (dict_get (user_finger_after_winning self) f); [|lia].
      destruct (String.eqb f g); lia.
    + now rewrite Hd.
Qed.

(** X8.  In every state that a game can reach the counters are not negative, the
    keys of [user_finger_after_winning] are the five fingers in their
    order, and the count of each finger lies between 0 and [win_turn]. *)
Theorem statistics_bounds (n : nat) (self : Statistics) :
  reachable_in n self ->
  0 <= win_turn self /\ 0 <= lose_turn self /\ 0 <= draw_turn self /\
  dict_keys (user_finger_after_winning self) = available_fingers /\
  (forall f, 0 <= after_winning_get self f <= win_turn self).
Proof.
  intros Hr.
  assert (Hcounters : 0 <= win_turn self /\ 0 <= lose_turn self /\ 0 <= draw_turn self).
  { induction Hr as [|n self self' g win draw lose Hr IH Hone Hup].
    - simpl. lia.
    - destruct (update_stats_returns _ _ _ _ _ _ Hone Hup) as (_ & Hw & Hl & Hd & _).
      rewrite Hw, Hl, Hd. unfold b2z. destruct win, draw, lose; lia. }
  destruct Hcounters as (Hw & Hl & Hd).
  repeat (split; [assumption|]).
  split; [exact (reachable_keys _ _ Hr)|].
  intros f. split; [exact (after_winning_get_nonneg _ _ f Hr)|].
  pose proof (after_winning_sum_exact _ _ Hr) as Hsum.
  assert (Hle : after_winning_sum self <= win_turn self).
  { unfold b2z in Hsum. destruct (last_user_win self); lia. }
  destruct (List.in_dec string_dec f available_fingers) as [Hf|Hf].
  - pose proof (fun g => after_winning_get_nonneg _ _ g Hr) as Hnn.
    unfold after_winning_sum, available_fingers in Hle. simpl in Hle.
    pose proof (Hnn "拇指"). pose proof (Hnn "食指"). pose proof (Hnn "中指").
    pose proof (Hnn "无名指"). pose proof (Hnn "小指").
    each_member Hf; lia.
  - unfold after_winning_get. rewrite dict_get_missing; [lia|].
    now rewrite (reachable_keys _ _ Hr).
Qed.

Lemma statistics_bounds_witness :
  reachable_in 2 after_a_win_and_a_loss /\
  0 <= after_winning_get after_a_win_and_a_loss "小指"
    <= win_turn after_a_win_and_a_loss.
Proof.
  split; [exact after_a_win_and_a_loss_reachable|].
  apply (statistics_bounds 2 after_a_win_and_a_loss after_a_win_and_a_loss_reachable).
Defined.

(** X9.  [last_user_finger] is [None] before the first round and never again,
    and [last_user_win] is set only when a win has been counted. *)
Theorem last_round_recorded (n : nat) (self : Statistics) :
  reachable_in n self ->
  (last_user_finger self = None <-> n = 0%nat) /\
  (n = 0%nat -> self = init) /\
  (last_user_win self = true -> 1 <= win_turn self).
Proof.
  intros Hr. split; [|split].
  - destruct Hr as [|n self self' g win draw lose Hr Hone Hup]; [tauto|].
    destruct (update_stats_returns _ _ _ _ _ _ Hone Hup) as (_ & _ & _ & _ & Hf & _).
    rewrite Hf. split; [discriminate | lia].
  - intros ->. now inversion Hr.
  - intros Hlast. pose proof (after_winning_sum_exact _ _ Hr) as Hsum.
    rewrite Hlast in Hsum. unfold b2z in Hsum.
    assert (Hnn : 0 <= after_winning_sum self).
    { pose proof (fun g => after_winning_get_nonneg _ _ g Hr) as Hnn.
      unfold after_winning_sum, available_fingers. simpl.
      pose proof (Hnn "拇指"). pose proof (Hnn "食指"). pose proof (Hnn "中指").
      pose proof (Hnn "无名指"). pose proof (Hnn "小指"). lia. }
    lia.
Qed.

Lemma last_round_recorded_witness :
  reachable_in 1 after_a_win /\ 1 <= win_turn after_a_win.
Proof.
  split; [exact after_a_win_reachable|].
  exact (proj2 (proj2 (last_round_recorded 1 after_a_win after_a_win_reachable)) eq_refl).
Defined.

(** *** The finger of the computer *)

(** X10.  In a state that a game can reach, whatever is drawn, the computer plays
    one of the five fingers: [random.choice] is never given an empty
    sequence and the lookup of the finger that beats the prediction never
    fails. *)
Theorem computer_plays_a_finger (self : Statistics) (r : result Finger) :
  reachable self ->
  In r (Dist.outcomes (get_computer_choice self)) ->
  exists g, r = Ok g /\ In g available_fingers.
Proof. apply get_computer_choice_plays_a_finger. Qed.

Lemma computer_plays_a_finger_witness :
  reachable after_a_win /\
  exists g, Ok "小指" = Ok g /\ In g available_fingers.
Proof.
  assert (Hr : reachable after_a_win).
  { exists 1%nat. exact after_a_win_reachable. }
  split; [exact Hr|].
  apply (computer_plays_a_finger after_a_win (Ok "小指") Hr).
  vm_compute. repeat (first [left; reflexivity | right]).
Defined.

(** X11.  After a round that the user did not win, the computer plays each
    finger with probability 1/5 when no finger was played yet; otherwise it
    plays the finger that beats the user's last finger with probability
    1/20 and each of the four others with probability 19/80. *)
Theorem computer_choice_after_no_win (self : Statistics) (g : Finger) :
  last_user_win self = false ->
  In g available_fingers ->
  (last_user_finger self = None ->
   (Dist.prob (is_finger g) (get_computer_choice self) == 1 # 5)%Q) /\
  (forall x, In x available_fingers -> last_user_finger self = Some x ->
   (Dist.prob (is_finger g) (get_computer_choice self)
    == if pair_in (g, x) win_lose_pairs then 1 # 20 else 19 # 80)%Q).
Proof.
  intros Hlast Hg. unfold get_computer_choice, remaining_fingers. rewrite Hlast.
  split.
  - intros ->. each_member Hg; vm_compute; reflexivity.
  - intros x Hx ->. each_member Hx; each_member Hg; vm_compute; reflexivity.
Qed.

Lemma computer_choice_after_no_win_witness :
  (Dist.prob (is_finger "小指") (get_computer_choice after_a_win_and_a_loss)
   == 19 # 80)%Q /\
  (Dist.prob (is_finger "无名指") (get_computer_choice after_a_win_and_a_loss)
   == 1 # 20)%Q.
Proof.
  assert (Hlast : last_user_win after_a_win_and_a_loss = false) by reflexivity.
  assert (Hx : In "小指" available_fingers) by pick_member.
  assert (Hg : In "无名指" available_fingers) by pick_member.
  split.
  - exact (proj2 (computer_choice_after_no_win after_a_win_and_a_loss "小指" Hlast Hx)
             "小指" Hx eq_refl).
  - exact (proj2 (computer_choice_after_no_win after_a_win_and_a_loss "无名指" Hlast Hg)
             "小指" Hx eq_refl).
Defined.

Lemma get_winning_finger_injective (f g w : Finger) :
  get_winning_finger f = Ok w -> get_winning_finger g = Ok w -> f = g.
Proof.
  intros Hf Hg. apply get_winning_finger_sound in Hf, Hg.
  each_member Hf; inversion Hf; subst; clear Hf;
    each_member Hg; inversion Hg; reflexivity.
Qed.

(** X12.  After a round that the user won, the computer plays each of the two
    fingers that beat the two predicted fingers with probability 11/25 and
    each of the three others with probability 1/25. *)
Theorem computer_choice_after_a_win (self : Statistics) :
  reachable self ->
  last_user_win self = true ->
  exists a b wa wb,
    predicted_fingers self = [a; b] /\
    get_winning_finger a = Ok wa /\ get_winning_finger b = Ok wb /\ wa <> wb /\
    forall g, In g available_fingers ->
      (Dist.prob (is_finger g) (get_computer_choice self)
       == if String.eqb wa g || String.eqb wb g then 11 # 25 else 1 # 25)%Q.
Proof.
  intros [n Hr] Hlast.
  destruct (predicted_fingers_top2 self (reachable_keys _ _ Hr))
    as (a & b & Hpred & Hab & Ha & Hb & _).
  destruct (winning_finger_exists a Ha) as [wa (Hwa & _ & _)].
  destruct (winning_finger_exists b Hb) as [wb (Hwb & _ & _)].
  exists a, b, wa, wb. repeat (split; [assumption|]).
  assert (Hw : wa <> wb).
  { intros ->. apply Hab. exact (get_winning_finger_injective _ _ _ Hwa Hwb). }
  split; [exact Hw|].
  intros g Hg. unfold get_computer_choice. rewrite Hlast, prob_random_lt, Hpred.
  rewrite (choice_uniform g available_fingers available_fingers_NoDup Hg).
  unfold beat_one_of, Dist.bind, Dist.choice. simpl List.flat_map.
  rewrite Hwa, Hwb. cbn [rbind Dist.scale Dist.ret List.map List.app fst snd].
  rewrite !prob_cons. unfold Dist.prob, Dist.weight. cbn [List.filter List.map List.fold_right is_finger].
  destruct (String.eqb_spec wa g) as [->|Hag];
    destruct (String.eqb_spec wb g) as [->|Hbg]; try contradiction;
    cbn [orb]; vm_compute; reflexivity.
Qed.

Lemma computer_choice_after_a_win_witness :
  reachable after_a_win /\ last_user_win after_a_win = true /\
  exists a b, predicted_fingers after_a_win = [a; b].
Proof.
  assert (Hr : reachable after_a_win).
  { exists 1%nat. exact after_a_win_reachable. }
  split; [exact Hr|]. split; [reflexivity|].
  destruct (computer_choice_after_a_win after_a_win Hr eq_refl)
    as (a & b & _ & _ & Hpred & _).
  exists a, b. exact Hpred.
Defined.

(** *** The runs of a game *)

Lemma outcomes_bind {A B : Type} (d : Dist.dist A) (k : A -> Dist.dist B) (b : B) :
  In b (Dist.outcomes (Dist.bind d k)) <->
  exists a, In a (Dist.outcomes d) /\ In b (Dist.outcomes (k a)).
Proof.
  unfold Dist.outcomes, Dist.bind. rewrite List.in_map_iff. split.
  - intros [[b' q] [<- Hin]]. apply List.in_flat_map in Hin as [[a p] [Ha Hb]].
    exists a. split.
    + apply List.in_map_iff. now exists (a, p).
    + simpl in Hb. rewrite <- (scale_outcomes p (k a)).
      apply List.in_map_iff. now exists (b', q).
  - intros [a [Ha Hb]]. apply List.in_map_iff in Ha as [[a' p] [<- Ha]].
    simpl in Hb. rewrite <- (scale_outcomes p (k a')) in Hb.
    apply List.in_map_iff in Hb as [[b' q] [<- Hb]].
    exists (b', q). split; [reflexivity|].
    apply List.in_flat_map. now exists (a', p).
Qed.

Lemma outcomes_printed_before (out : list event) (d : Dist.dist run) (r : run) :
  In r (Dist.outcomes (printed_before out d)) <->
  exists r', In r' (Dist.outcomes d) /\ r = (out ++ fst r', snd r').
Proof.
  unfold Dist.outcomes, printed_before. rewrite List.map_map, List.in_map_iff.
  split.
  - intros [[r' p] [<- Hin]]. exists r'. split; [|reflexivity].
    apply List.in_map_iff. now exists (r', p).
  - intros [r' [Hin ->]]. apply List.in_map_iff in Hin as [[r'' p] [<- Hin]].
    now exists (r'', p).
Qed.

(** A round with a finger of the game, from a state that a game can reach:
    the computer plays a finger, the judge announces the outcome and the
    statistics count one more turn. *)
Lemma round_outcomes (self : Statistics) (u : Finger) (r : run) :
  reachable self -> In u available_fingers ->
  In r (Dist.outcomes (round self u)) ->
  exists c self',
    In c available_fingers /\
    r = ([ComputerChose c; Announce (classify u c)], Ok self') /\
    reachable self' /\
    total_turn self' = total_turn self + 1 /\
    last_user_finger self' = Some u.
Proof.
  intros Hr Hu Hin. unfold round in Hin.
  apply outcomes_bind in Hin as [rc [Hrc Hin]].
  destruct (get_computer_choice_plays_a_finger self rc Hr Hrc) as [c [-> Hc]].
  simpl in Hin. destruct Hin as [<-|[]].
  exists c.
  assert (Hjudge : exists self', judge self u c =
            ([ComputerChose c; Announce (classify u c)], Ok self')).
  { unfold judge.
    destruct (classify u c);
      [ destruct (update_stats_total self u true false false Hr Hu) as [s' ->]
      | destruct (update_stats_total self u false false true Hr Hu) as [s' ->]
      | destruct (update_stats_total self u false true false Hr Hu) as [s' ->] ];
      unfold exactly_one; eauto; tauto. }
  destruct Hjudge as [self' Hjudge]. exists self'.
  split; [exact Hc|]. split; [exact Hjudge|].
  split; [exact (judge_reachable _ _ _ _ _ Hr Hjudge)|].
  unfold judge in Hjudge.
  destruct (classify u c); injection Hjudge as Hup;
    match type of Hup with
    | update_stats _ _ ?w ?d ?l = _ =>
        assert (Hone : exactly_one w d l) by (unfold exactly_one; tauto);
        destruct (update_stats_returns _ _ _ _ _ _ Hone Hup) as (Ht & _ & _ & _ & Hf & _)
    end; auto.
Qed.

Lemma game_loop_cons (self : Statistics) (line : string) (rest : list string) :
  game_loop self (line :: rest) =
  if String.eqb line exit_str then Dist.ret ([Prompt], Ok self)
  else if str_in line available_fingers then
    printed_before [Prompt]
      (Dist.bind (round self line) (fun r =>
         match snd r with
         | Raise e => Dist.ret r
         | Ok self' => printed_before (fst r) (game_loop self' rest)
         end))
  else printed_before [Prompt; ErrorPrompt] (game_loop self rest).
Proof.
  cbn [game_loop]. unfold valid_input.
  destruct (String.eqb line exit_str); [reflexivity|].
  destruct (str_in line available_fingers); reflexivity.
Qed.

Lemma exits_cons (line : string) (rest : list string) :
  exits (line :: rest) = String.eqb line exit_str || exits rest.
Proof. unfold exits. cbn [str_in List.existsb]. now rewrite String.eqb_sym. Qed.

(** X13.  A game never ends on an internal fault.  From a state that a game can
    reach, whatever the lines of the input and whatever is drawn: when the
    exit token is among the lines the run returns, with statistics that
    count one turn for each finger entered before it; when it is not, the
    run ends at the end of the input with [EOFError].  No run ends with an
    [AssertionError], a [KeyError] or an [IndexError]. *)
Theorem game_runs (stdin : list string) (self : Statistics) (r : run) :
  reachable self ->
  In r (Dist.outcomes (game_loop self stdin)) ->
  (exits stdin = true /\
   exists self', snd r = Ok self' /\ reachable self' /\
     total_turn self' =
       total_turn self + Z.of_nat (List.length (fingers_played stdin))) \/
  (exits stdin = false /\ snd r = Raise EOFError).
Proof.
  revert self r. induction stdin as [|line rest IH]; intros self r Hr Hin.
  - right. destruct Hin as [<-|[]]. split; reflexivity.
  - rewrite game_loop_cons in Hin. rewrite exits_cons.
    change (fingers_played (line :: rest))
      with (if String.eqb line exit_str then []
            else if str_in line available_fingers then line :: fingers_played rest
            else fingers_played rest).
    destruct (String.eqb line exit_str) eqn:Hexit.
    + left. destruct Hin as [<-|[]]. split; [reflexivity|].
      exists self. repeat split; [exact Hr | simpl List.length; lia].
    + rewrite orb_false_l.
      destruct (str_in line available_fingers) eqn:Hfinger.
      * apply outcomes_printed_before in Hin as [r1 [Hin ->]].
        apply outcomes_bind in Hin as [r2 [Hround Hin]].
        apply str_in_spec in Hfinger.
        destruct (round_outcomes self line r2 Hr Hfinger Hround)
          as (c & self1 & _ & -> & Hr1 & Ht1 & _).
        cbn [fst snd] in Hin.
        apply outcomes_printed_before in Hin as [r3 [Hin ->]].
        destruct (IH self1 r3 Hr1 Hin) as [(Hex & self' & Hs & Hr' & Ht)|(Hex & Hs)].
        -- left. split; [exact Hex|]. exists self'. cbn [fst snd].
           repeat split; [exact Hs | exact Hr' |].
           rewrite Ht, Ht1. simpl List.length. lia.
        -- right. split; [exact Hex | exact Hs].
      * apply outcomes_printed_before in Hin as [r1 [Hin ->]].
        destruct (IH self r1 Hr Hin) as [(Hex & self' & Hs & Hr' & Ht)|(Hex & Hs)].
        -- left. split; [exact Hex|]. exists self'. cbn [fst snd]. auto.
        -- right. split; [exact Hex | exact Hs].
Qed.

Lemma game_runs_witness :
  reachable init /\
  exists self', total_turn self' = 0 + Z.of_nat (List.length (fingers_played ["小指"; "exit"])).
Proof.
  assert (Hr : reachable init) by (exists 0%nat; constructor).
  split; [exact Hr|].
  destruct (game_runs ["小指"; "exit"]
              init
              ([Prompt; ComputerChose "无名指"; Announce Lose; Prompt],
               Ok {| total_turn := 1; win_turn := 0; lose_turn := 1; draw_turn := 0;
                     user_finger_after_winning :=
                       [("拇指", 0); ("食指", 0); ("中指", 0); ("无名指", 0); ("小指", 0)];
                     last_user_finger := Some "小指";
                     last_user_win := false |}) Hr)
    as [(_ & self' & _ & _ & Ht)|(Hex & _)].
  - vm_compute. repeat (first [left; reflexivity | right]).
  - exists self'. exact Ht.
  - discriminate Hex.
Defined.

(** *** [Statistics.to_string] *)

Lemma string_app_nil (b : string) : (EmptyString ++ b = b)%string.
Proof. reflexivity. Qed.

Lemma string_app_cons (x : Ascii.ascii) (a b : string) :
  (String x a ++ b = String x (a ++ b))%string.
Proof. reflexivity. Qed.

Lemma string_app_assoc (a b c : string) :
  ((a ++ b) ++ c = a ++ (b ++ c))%string.
Proof.
  induction a as [|x a IH]; rewrite ?string_app_nil, ?string_app_cons;
    [reflexivity | now f_equal].
Qed.

Lemma string_app_inv_head (p x y : string) :
  (p ++ x = p ++ y)%string -> x = y.
Proof.
  induction p as [|c p IH]; rewrite ?string_app_nil, ?string_app_cons; [auto|].
  intros [= H]. now apply IH.
Qed.

(** Two texts that agree, each cut at the first occurrence of [c], agree
    before and after it. *)
Lemma string_cut_at (c : Ascii.ascii) (x x' y y' : string) :
  free_of c x -> free_of c x' ->
  (x ++ String c y = x' ++ String c y')%string -> x = x' /\ y = y'.
Proof.
  revert x'. induction x as [|a x IH]; intros [|a' x'];
    rewrite ?string_app_nil, ?string_app_cons; cbn [free_of].
  - intros _ _ [= ->]. auto.
  - intros _ [Hne _] [= -> _]. contradiction.
  - intros [Hne _] _ [= -> _]. contradiction.
  - intros [_ Hx] [_ Hx'] [= -> H]. destruct (IH x' Hx Hx' H) as [-> ->]. auto.
Qed.

Lemma string_of_uint_free (d : Decimal.uint) :
  free_of ";"%char (NilEmpty.string_of_uint d).
Proof. induction d; simpl; (split; [discriminate | assumption]) || exact I. Qed.

Lemma str_of_int_free (n : Z) : free_of ";"%char (str_of_int n).
Proof.
  unfold str_of_int. destruct (Z.to_int n) as [d|d]; simpl.
  - apply string_of_uint_free.
  - split; [discriminate | apply string_of_uint_free].
Qed.

Lemma str_of_int_inj (n m : Z) : str_of_int n = str_of_int m -> n = m.
Proof.
  unfold str_of_int. intros H.
  apply (f_equal NilEmpty.int_of_string) in H. rewrite !NilEmpty.isi in H.
  injection H as H. apply (f_equal Z.of_int) in H. now rewrite !DecimalZ.of_to in H.
Qed.

(** X14.  The summary that [to_string] writes determines the four counters: two
    statistics with the same summary have the same numbers of turns, wins,
    losses and draws. *)
Theorem to_string_determines_counters (s1 s2 : Statistics) :
  to_string s1 = to_string s2 ->
  total_turn s1 = total_turn s2 /\ win_turn s1 = win_turn s2 /\
  lose_turn s1 = lose_turn s2 /\ draw_turn s1 = draw_turn s2.
Proof.
  unfold to_string. rewrite !string_app_assoc. intros H.
  repeat match type of H with
         | (str_of_int ?a ++ String ";"%char ?y = str_of_int ?b ++ String ";"%char ?y')%string =>
             let Hd := fresh "Hd" in
             destruct (string_cut_at ";"%char _ _ _ _ (str_of_int_free a) (str_of_int_free b) H)
               as [Hd H']; clear H; rename H' into H; apply str_of_int_inj in Hd
         | (String ?c ?x = String ?c ?y)%string => injection H as H
         | (?p ++ ?x = ?p ++ ?y)%string => apply string_app_inv_head in H
         | _ => progress (unfold tab, newline in H)
         | _ => progress (rewrite ?string_app_nil, ?string_app_cons in H)
         end.
  auto.
Qed.

Lemma to_string_determines_counters_witness :
  to_string after_a_win = to_string (set_last_user_win false after_a_win) /\
  win_turn after_a_win = win_turn (set_last_user_win false after_a_win).
Proof.
  assert (H : to_string after_a_win = to_string (set_last_user_win false after_a_win))
    by reflexivity.
  split; [exact H|].
  exact (proj1 (proj2 (to_string_determines_counters _ _ H))).
Defined.

(** * Properties of the word counters *)

Import WordCount.

Section WordCountFacts.
Implicit Types (d : gmap str Z) (keys words : list str) (value : str -> Z).

Lemma fold_insert_lookup value keys d (k : str) :
  List.fold_left (fun d key => <[key := value key]> d) keys d !! k =
  if decide (k ∈ keys) then Some (value k) else d !! k.
Proof.
  revert d. induction keys as [|key keys IH]; intros d; simpl.
  - destruct (decide (k ∈ [])) as [H|_]; [|reflexivity]. inversion H.
  - rewrite IH. destruct (decide (k ∈ keys)) as [Hin|Hnin].
    + rewrite decide_True by (now right). reflexivity.
    + destruct (decide (k = key)) as [->|Hne].
      * rewrite decide_True by (now left). apply lookup_insert_eq.
      * rewrite decide_False.
        -- now apply lookup_insert_ne.
        -- intros H. apply elem_of_cons in H as [?|?]; contradiction.
Qed.

(** A comprehension maps the keys it ran over, each to its value. *)
Lemma dict_comprehension_lookup value keys (k : str) :
  dict_comprehension value keys !! k =
  if decide (k ∈ keys) then Some (value k) else None.
Proof. unfold dict_comprehension. rewrite fold_insert_lookup. now rewrite lookup_empty. Qed.

Lemma dict_comprehension_dom value keys :
  dom (dict_comprehension value keys) = list_to_set keys.
Proof.
  apply set_eq. intros k.
  rewrite elem_of_dom, elem_of_list_to_set, dict_comprehension_lookup.
  destruct (decide (k ∈ keys)) as [H|H]; split; intros H'.
  - exact H.
  - eauto.
  - destruct H' as [v Hv]. discriminate Hv.
  - contradiction.
Qed.

(** Only the members of [keys] matter, not their order or number. *)
Lemma dict_comprehension_ext value1 value2 keys1 keys2 :
  (forall k, k ∈ keys1 <-> k ∈ keys2) ->
  (forall k, k ∈ keys1 -> value1 k = value2 k) ->
  dict_comprehension value1 keys1 = dict_comprehension value2 keys2.
Proof.
  intros Hkeys Hval. apply map_eq. intros k.
  rewrite !dict_comprehension_lookup.
  destruct (decide (k ∈ keys1)) as [H1|H1].
  - rewrite decide_True by (now apply Hkeys). now rewrite Hval.
  - rewrite decide_False; [reflexivity|]. intros H2. now apply H1, Hkeys.
Qed.

Lemma get_comm_sum d1 d2 (k : str) : get d1 k 0 + get d2 k 0 = get d2 k 0 + get d1 k 0.
Proof. lia. Qed.

(** In whatever order the two unions are iterated, the merged counts are
    the same. *)
Lemma merge_word_counts_any_order d1 d2 keys12 keys21 :
  (forall k, k ∈ keys12 <-> k ∈ dom d1 ∪ dom d2) ->
  (forall k, k ∈ keys21 <-> k ∈ dom d2 ∪ dom d1) ->
  merge_word_counts_over keys12 d1 d2 = merge_word_counts_over keys21 d2 d1.
Proof.
  intros H12 H21. unfold merge_word_counts_over. apply dict_comprehension_ext.
  - intros k. rewrite H12, H21, !elem_of_union. tauto.
  - intros k _. apply get_comm_sum.
Qed.
End WordCountFacts.

(** C9.  [merge_word_counts] is commutative: the two orders of the
    arguments give the same mapping; its keys are the union of the keys of
    the two dictionaries, and each key is mapped to the sum of its counts in
    the two, a missing count being 0. *)
Theorem merge_word_counts_comm (dict1 dict2 : gmap str Z) :
  merge_word_counts dict1 dict2 = merge_word_counts dict2 dict1 /\
  dom (merge_word_counts dict1 dict2) = dom dict1 ∪ dom dict2 /\
  dom (merge_word_counts dict2 dict1) = dom dict1 ∪ dom dict2 /\
  (forall key : str,
     merge_word_counts dict1 dict2 !! key =
     if decide (key ∈ dom dict1 ∪ dom dict2)
     then Some (get dict1 key 0 + get dict2 key 0) else None).
Proof.
  unfold merge_word_counts, merge_word_counts_over.
  split; [|split; [|split]].
  - apply merge_word_counts_any_order; intros k; apply elem_of_elements.
  - rewrite dict_comprehension_dom. apply set_eq. intros k.
    now rewrite elem_of_list_to_set, elem_of_elements.
  - rewrite dict_comprehension_dom. apply set_eq. intros k.
    rewrite elem_of_list_to_set, elem_of_elements, !elem_of_union. tauto.
  - intros key. rewrite dict_comprehension_lookup.
    destruct (decide (key ∈ dom dict1 ∪ dom dict2)) as [H|H].
    + rewrite decide_True by (now apply elem_of_elements). reflexivity.
    + rewrite decide_False; [reflexivity|]. now rewrite elem_of_elements.
Qed.

Section CountFacts.
Implicit Types (d : gmap str Z) (keys words : list str) (value : str -> Z).

(** [words.count(word)] is the number of positions of [words] that hold
    [word]. *)
Lemma count_occurrences (word : str) words :
  count word words =
  Z.of_nat (List.length (List.filter (fun w => bool_decide (w = word)) words)).
Proof.
  induction words as [|w words IH]; simpl; [reflexivity|].
  rewrite IH. destruct (bool_decide (w = word)); simpl List.length; lia.
Qed.

Lemma count_member (word : str) words : word ∈ words -> 1 <= count word words.
Proof.
  induction words as [|w words IH]; intros Hin; [inversion Hin|].
  pose proof (count_occurrences word words) as Hnn. simpl.
  apply elem_of_cons in Hin as [->|Hin].
  - rewrite bool_decide_eq_true_2 by reflexivity. lia.
  - specialize (IH Hin). destruct (bool_decide (w = word)); lia.
Qed.

Lemma sum_values_insert d (k : str) (v : Z) :
  d !! k = None -> sum_values (<[k := v]> d) = v + sum_values d.
Proof.
  intros Hnone. unfold sum_values.
  rewrite map_fold_insert_L; [reflexivity | | exact Hnone].
  intros. lia.
Qed.

Lemma sum_values_fold_insert value keys d :
  NoDup keys -> (forall k, k ∈ keys -> d !! k = None) ->
  sum_values (List.fold_left (fun d key => <[key := value key]> d) keys d) =
  sum_over value keys + sum_values d.
Proof.
  intros Hnd. revert d. induction Hnd as [|k keys Hk Hnd IH]; intros d Hfresh; simpl.
  - reflexivity.
  - rewrite IH.
    + rewrite sum_values_insert by (apply Hfresh; now left). lia.
    + intros k' Hk'. rewrite lookup_insert_ne.
      * apply Hfresh. now right.
      * intros ->. contradiction.
Qed.

Lemma sum_over_add (f g : str -> Z) keys :
  sum_over (fun k => f k + g k) keys = sum_over f keys + sum_over g keys.
Proof. induction keys as [|k keys IH]; simpl; [reflexivity | rewrite IH; lia]. Qed.

Lemma sum_over_indicator (w : str) keys :
  NoDup keys ->
  sum_over (fun k => if bool_decide (w = k) then 1 else 0) keys =
  if bool_decide (w ∈ keys) then 1 else 0.
Proof.
  induction 1 as [|k keys Hk Hnd IH].
  - case_bool_decide as Hin; [inversion Hin | reflexivity].
  - change (sum_over (fun k => if bool_decide (w = k) then 1 else 0) (k :: keys))
      with ((if bool_decide (w = k) then 1 else 0)
            + sum_over (fun k => if bool_decide (w = k) then 1 else 0) keys).
    rewrite IH.
    repeat case_bool_decide; try reflexivity; exfalso;
      repeat match goal with
             | H : _ ∈ _ :: _ |- _ => apply elem_of_cons in H as [?|?]
             | H : _ ∉ _ :: _ |- _ => rewrite not_elem_of_cons in H; destruct H
             end; subst; contradiction.
Qed.

(** Summed over keys without repetition, the counts cover the positions
    of [words] that hold one of the keys. *)
Lemma sum_over_count keys words :
  NoDup keys ->
  sum_over (fun k => count k words) keys =
  Z.of_nat (List.length (List.filter (fun w => bool_decide (w ∈ keys)) words)).
Proof.
  intros Hnd. induction words as [|w words IH]; simpl.
  - induction keys as [|k keys IHk]; simpl; [reflexivity|].
    rewrite IHk; [reflexivity|]. now inversion Hnd.
  - rewrite sum_over_add, IH, (sum_over_indicator w keys Hnd).
    destruct (bool_decide (w ∈ keys)); simpl List.length; lia.
Qed.

Lemma filter_members words :
  List.filter (fun w => bool_decide (w ∈ remove_dups words)) words = words.
Proof.
  apply List.forallb_filter_id, List.forallb_forall. intros w Hw.
  apply bool_decide_eq_true_2, elem_of_remove_dups, list_elem_of_In, Hw.
Qed.
End CountFacts.

Lemma rev_word (c : N) (word : str) :
  Forall (fun c => isspace c = false) (c :: word) ->
  List.rev (c :: word) <> [] /\
  Forall (fun c => isspace c = false) (List.rev (c :: word)).
Proof.
  intros Hword. split.
  - intros H. apply (f_equal (@List.length _)) in H.
    rewrite List.length_rev in H. discriminate H.
  - now apply List.Forall_rev.
Qed.

(** Every word of [text.split()] has a character and no white space. *)
Lemma split_from_words (word text : str) :
  Forall (fun c => isspace c = false) word ->
  Forall (fun w => w <> [] /\ Forall (fun c => isspace c = false) w)
    (split_from word text).
Proof.
  revert word. induction text as [|c rest IH]; intros word Hword; simpl.
  - destruct word as [|c' word']; constructor; [|constructor].
    now apply rev_word.
  - destruct (isspace c) eqn:Hc.
    + destruct word as [|c' word'].
      * apply IH. constructor.
      * constructor; [now apply rev_word | apply IH; constructor].
    + apply IH. now constructor.
Qed.

(** C10.  The dictionary that [count_word_occurrences] returns has as keys
    the words of [text.split()], maps each of them to the number of times it
    occurs among these words, a number that is at least 1, and its values
    add up to the number of words. *)
Theorem count_word_occurrences_spec (text : str) :
  dom (count_word_occurrences text) = list_to_set (split text) /\
  (forall word : str,
     count_word_occurrences text !! word =
     if decide (word ∈ split text) then Some (count word (split text)) else None) /\
  map_Forall (fun word v =>
                1 <= v /\
                v = Z.of_nat (List.length
                       (List.filter (fun w => bool_decide (w = word)) (split text))))
    (count_word_occurrences text) /\
  sum_values (count_word_occurrences text) = Z.of_nat (List.length (split text)).
Proof.
  unfold count_word_occurrences. cbv zeta.
  set (words := split text).
  split; [|split; [|split]].
  - apply dict_comprehension_dom.
  - intros word. apply dict_comprehension_lookup.
  - intros word v. rewrite dict_comprehension_lookup.
    destruct (decide (word ∈ words)) as [Hin|Hnin]; [|discriminate].
    intros [= <-]. split; [now apply count_member | apply count_occurrences].
  - rewrite (dict_comprehension_ext _ (fun word => count word words)
               words (remove_dups words)).
    + unfold dict_comprehension.
      rewrite sum_values_fold_insert.
      * rewrite sum_over_count by apply NoDup_remove_dups.
        rewrite filter_members. unfold sum_values. rewrite map_fold_empty. lia.
      * apply NoDup_remove_dups.
      * intros k _. apply lookup_empty.
    + intros k. symmetry. apply elem_of_remove_dups.
    + reflexivity.
Qed.

(** Two words, one of them twice, between blanks of several kinds. *)
Example count_word_occurrences_example :
  split (text_of "  ab c  ab ") = [text_of "ab"; text_of "c"; text_of "ab"] /\
  count_word_occurrences (text_of "  ab c  ab ") !! text_of "ab" = Some 2 /\
  count_word_occurrences (text_of "  ab c  ab ") !! text_of "c" = Some 1 /\
  count_word_occurrences (text_of "  ab c  ab ") !! text_of "d" = None /\
  sum_values (count_word_occurrences (text_of "  ab c  ab ")) = 3.
Proof. repeat split; vm_compute; reflexivity. Qed.

(** * Further properties of the word counters *)

Section MergeFacts.
Implicit Types (d : gmap str Z) (k : str).

Lemma merge_lookup d1 d2 k :
  merge_word_counts d1 d2 !! k =
  if decide (k ∈ dom d1 ∪ dom d2) then Some (get d1 k 0 + get d2 k 0) else None.
Proof.
  unfold merge_word_counts, merge_word_counts_over.
  rewrite dict_comprehension_lookup.
  destruct (decide (k ∈ dom d1 ∪ dom d2)) as [H|H].
  - rewrite decide_True by (now apply elem_of_elements). reflexivity.
  - rewrite decide_False; [reflexivity|]. now rewrite elem_of_elements.
Qed.

Lemma get_absent d k : k ∉ dom d -> get d k 0 = 0.
Proof. intros H. apply not_elem_of_dom in H. unfold get. now rewrite H. Qed.

(** [get] of a merged dictionary is the sum of the two [get]s, for keys
    present or absent. *)
Lemma get_merge d1 d2 k :
  get (merge_word_counts d1 d2) k 0 = get d1 k 0 + get d2 k 0.
Proof.
  unfold get at 1. rewrite merge_lookup.
  destruct (decide (k ∈ dom d1 ∪ dom d2)) as [H|H]; [reflexivity|].
  rewrite !get_absent; [reflexivity | |]; intros Hin; apply H, elem_of_union; auto.
Qed.

Lemma merge_dom d1 d2 : dom (merge_word_counts d1 d2) = dom d1 ∪ dom d2.
Proof.
  apply set_eq. intros k. rewrite elem_of_dom, merge_lookup.
  destruct (decide (k ∈ dom d1 ∪ dom d2)) as [H|H]; split; intros H'.
  - exact H.
  - eauto.
  - destruct H' as [v Hv]. discriminate Hv.
  - contradiction.
Qed.
End MergeFacts.

(** X15.  The empty dictionary is neutral for [merge_word_counts], on either
    side. *)
Theorem merge_word_counts_empty (d : gmap str Z) :
  merge_word_counts d ∅ = d /\ merge_word_counts ∅ d = d.
Proof.
  split; apply map_eq; intros k; rewrite merge_lookup, dom_empty_L;
    unfold get; rewrite lookup_empty;
    (destruct (d !! k) as [v|] eqn:Hk;
     [ rewrite decide_True by (apply elem_of_union; rewrite elem_of_dom; eauto);
       f_equal; lia
     | rewrite decide_False; [reflexivity|];
       rewrite elem_of_union, elem_of_dom, Hk;
       intros [H|H]; try (now destruct H); now apply not_elem_of_empty in H ]).
Qed.

(** X16.  [merge_word_counts] is associative. *)
Theorem merge_word_counts_assoc (d1 d2 d3 : gmap str Z) :
  merge_word_counts (merge_word_counts d1 d2) d3 =
  merge_word_counts d1 (merge_word_counts d2 d3).
Proof.
  apply map_eq. intros k. rewrite !merge_lookup, !merge_dom, !get_merge.
  destruct (decide (k ∈ (dom d1 ∪ dom d2) ∪ dom d3)) as [H|H].
  - rewrite decide_True by (rewrite !elem_of_union in *; tauto). f_equal. lia.
  - rewrite decide_False; [reflexivity|]. rewrite !elem_of_union in *. tauto.
Qed.

(** *** [count_word_occurrences] *)

Lemma split_from_app (word t1 t2 : str) (sep : N) :
  isspace sep = true ->
  split_from word (t1 ++ sep :: t2) = split_from word t1 ++ split t2.
Proof.
  intros Hsep. revert word. induction t1 as [|c t1 IH]; intros word; simpl.
  - rewrite Hsep. destruct word; reflexivity.
  - destruct (isspace c).
    + destruct word; simpl; now rewrite IH.
    + apply IH.
Qed.

Lemma split_app (t1 t2 : str) (sep : N) :
  isspace sep = true -> split (t1 ++ sep :: t2) = split t1 ++ split t2.
Proof. apply split_from_app. Qed.

Lemma count_app (word : str) (l1 l2 : list str) :
  count word (l1 ++ l2) = count word l1 + count word l2.
Proof. induction l1 as [|w l1 IH]; simpl; [reflexivity | rewrite IH; lia]. Qed.

Lemma count_absent (word : str) (words : list str) :
  word ∉ words -> count word words = 0.
Proof.
  induction words as [|w words IH]; intros Hnot; simpl; [reflexivity|].
  rewrite not_elem_of_cons in Hnot. destruct Hnot as [Hne Hnot].
  rewrite bool_decide_eq_false_2 by congruence. rewrite IH by exact Hnot. lia.
Qed.

Lemma get_count_word_occurrences (text word : str) :
  get (count_word_occurrences text) word 0 = count word (split text).
Proof.
  unfold get, count_word_occurrences. cbv zeta. rewrite dict_comprehension_lookup.
  destruct (decide (word ∈ split text)) as [H|H]; [reflexivity|].
  symmetry. now apply count_absent.
Qed.

(** X17.  Counting the words of two texts written one after the other, with a
    white space character between them, gives the merge of their counts. *)
Theorem count_word_occurrences_concat (text1 text2 : str) (sep : N) :
  isspace sep = true ->
  count_word_occurrences (text1 ++ sep :: text2) =
  merge_word_counts (count_word_occurrences text1) (count_word_occurrences text2).
Proof.
  intros Hsep. apply map_eq. intros k.
  rewrite merge_lookup, !get_count_word_occurrences.
  unfold count_word_occurrences at 1. cbv zeta.
  rewrite dict_comprehension_lookup, (split_app text1 text2 sep Hsep), count_app.
  unfold count_word_occurrences. cbv zeta. rewrite !dict_comprehension_dom.
  destruct (decide (k ∈ split text1 ++ split text2)) as [H|H].
  - rewrite decide_True; [reflexivity|].
    rewrite elem_of_union, !elem_of_list_to_set. now apply elem_of_app.
  - rewrite decide_False; [reflexivity|].
    rewrite elem_of_union, !elem_of_list_to_set. now rewrite <- elem_of_app.
Qed.

Lemma count_word_occurrences_concat_witness :
  count_word_occurrences (text_of "to be" ++ 10%N :: text_of "or not to be") =
  merge_word_counts (count_word_occurrences (text_of "to be"))
    (count_word_occurrences (text_of "or not to be")).
Proof. apply count_word_occurrences_concat. reflexivity. Defined.

Lemma split_from_nil (word text : str) :
  split_from word text = [] <-> word = [] /\ Forall (fun c => isspace c = true) text.
Proof.
  revert word. induction text as [|c rest IH]; intros word; simpl.
  - destruct word as [|c w].
    + split; [intros _; split; [reflexivity | constructor] | reflexivity].
    + split; [discriminate | intros [H _]; discriminate H].
  - destruct (isspace c) eqn:Hc.
    + destruct word as [|c' word'].
      * rewrite IH. split; intros [H1 H2]; split; auto.
        now inversion H2.
      * split; [discriminate | intros [H _]; discriminate H].
    + rewrite IH. split; [intros [H _]; discriminate H|].
      intros [_ H]. inversion H; congruence.
Qed.

(** X18.  The dictionary is empty exactly for the texts that hold nothing but
    white space, the empty text among them. *)
Theorem count_word_occurrences_empty (text : str) :
  count_word_occurrences text = ∅ <-> Forall (fun c => isspace c = true) text.
Proof.
  rewrite <- dom_empty_iff_L. unfold count_word_occurrences. cbv zeta.
  rewrite dict_comprehension_dom.
  assert (Hsplit : split text = [] <-> Forall (fun c => isspace c = true) text).
  { unfold split. rewrite split_from_nil. tauto. }
  rewrite <- Hsplit. split.
  - intros Hempty. destruct (split text) as [|w ws]; [reflexivity|].
    assert (Hw : w ∈ (list_to_set (w :: ws) : gset str)).
    { apply elem_of_list_to_set. now left. }
    rewrite Hempty in Hw. now apply not_elem_of_empty in Hw.
  - intros ->. reflexivity.
Qed.

(** X19.  No key is empty and no key holds a white space character. *)
Theorem count_word_occurrences_keys (text : str) :
  map_Forall (fun word _ => word <> [] /\ Forall (fun c => isspace c = false) word)
    (count_word_occurrences text).
Proof.
  intros word v. unfold count_word_occurrences. cbv zeta.
  rewrite dict_comprehension_lookup.
  destruct (decide (word ∈ split text)) as [Hin|]; [|discriminate].
  intros _. pose proof (split_from_words [] text (List.Forall_nil _)) as Hall.
  rewrite Forall_forall in Hall. now apply Hall.
Qed.

(** X20.  There are as many keys as different words, at most as many as words. *)
Theorem count_word_occurrences_size (text : str) :
  size (count_word_occurrences text) = List.length (remove_dups (split text)) /\
  (size (count_word_occurrences text) <= List.length (split text))%nat /\
  (size (count_word_occurrences text) = List.length (split text) <->
   NoDup (split text)).
Proof.
  assert (Hsize : size (count_word_occurrences text)
                  = List.length (remove_dups (split text))).
  { rewrite <- size_dom. unfold count_word_occurrences. cbv zeta.
    rewrite dict_comprehension_dom.
    rewrite <- (size_list_to_set (C := gset str) (remove_dups (split text)))
      by apply NoDup_remove_dups.
    f_equal. apply set_eq. intros k.
    now rewrite !elem_of_list_to_set, elem_of_remove_dups. }
  rewrite Hsize.
  assert (Hle : forall l : list str, (List.length (remove_dups l) <= List.length l)%nat).
  { induction l as [|x l IH]; simpl; [lia|].
    destruct (decide_rel elem_of x l); simpl; lia. }
  assert (Hnd : forall l : list str,
            List.length (remove_dups l) = List.length l <-> NoDup l).
  { induction l as [|x l IH]; simpl.
    - split; [constructor | reflexivity].
    - pose proof (Hle l) as Hl.
      destruct (decide_rel elem_of x l) as [Hx|Hx]; simpl.
      + split; [lia|]. intros Hn. apply NoDup_cons in Hn as [Hn _]. contradiction.
      + rewrite NoDup_cons. split.
        * intros Hn. split; [exact Hx|]. apply IH. lia.
        * intros [_ Hn]. apply IH in Hn. lia. }
  split; [reflexivity|]. split; [apply Hle | apply Hnd].
Qed.

(** *** [count_words_by_initial] *)

Section InitialFacts.
Implicit Types (d m : gmap str Z) (l : N) (i k : str).

Lemma add_if_initial_comm l (j1 j2 : str) (z1 z2 : Z) (y : result Z) :
  add_if_initial l j1 z1 (add_if_initial l j2 z2 y) =
  add_if_initial l j2 z2 (add_if_initial l j1 z1 y).
Proof.
  destruct y as [t|e]; [|reflexivity].
  destruct j1 as [|c1 j1], j2 as [|c2 j2]; simpl; try reflexivity.
  destruct (initial_is c1 l), (initial_is c2 l); f_equal; lia.
Qed.

Lemma initial_total_insert m i (x : Z) l :
  m !! i = None ->
  initial_total (<[i := x]> m) l = add_if_initial l i x (initial_total m l).
Proof.
  intros Hnone. unfold initial_total.
  apply map_fold_insert_L; [|exact Hnone].
  intros. apply add_if_initial_comm.
Qed.

Lemma initial_sum_insert m i (x : Z) l :
  m !! i = None ->
  initial_sum (<[i := x]> m) l = counted l i x + initial_sum m l.
Proof.
  intros Hnone. unfold initial_sum.
  rewrite map_fold_insert_L; [reflexivity | | exact Hnone].
  intros. lia.
Qed.

(** The total of a letter is the sum of the counts of the words that begin
    with it, unless the empty word is a key: then [word[0]] raises. *)
Lemma initial_total_spec d l :
  initial_total d l =
  match d !! [] with
  | Some _ => Raise IndexError
  | None => Ok (initial_sum d l)
  end.
Proof.
  induction d as [|i x m Hnone IH] using map_ind.
  - unfold initial_total, initial_sum. now rewrite !map_fold_empty, lookup_empty.
  - rewrite (initial_total_insert m i x l Hnone), (initial_sum_insert m i x l Hnone), IH.
    destruct i as [|c i].
    + rewrite lookup_insert_eq, Hnone. reflexivity.
    + rewrite lookup_insert_ne by discriminate.
      destruct (m !! []); [reflexivity|]. simpl.
      destruct (initial_is c l); f_equal; lia.
Qed.

Lemma by_initial_fold_raise d (ls : list N) (e : exn) :
  List.fold_left (add_initial d) ls (Raise e) = Raise e.
Proof. induction ls as [|l ls IH]; simpl; [reflexivity | exact IH]. Qed.

Lemma by_initial_fold_ok d (ls : list N) m0 :
  d !! [] = None ->
  List.fold_left (add_initial d) ls (Ok m0) =
  Ok (List.fold_left
        (fun m key => <[key := initial_sum d (List.hd 0%N key)]> m)
        (List.map (fun initial => [initial]) ls) m0).
Proof.
  intros Hnone. revert m0. induction ls as [|l ls IH]; intros m0; simpl.
  - reflexivity.
  - rewrite initial_total_spec, Hnone. cbn [rbind]. apply IH.
Qed.

Lemma count_words_by_initial_ok d :
  d !! [] = None -> count_words_by_initial d = Ok (initial_counts d).
Proof. intros Hnone. unfold count_words_by_initial. now rewrite by_initial_fold_ok. Qed.

Lemma initial_counts_lookup d l :
  l ∈ initials -> initial_counts d !! [l] = Some (initial_sum d l).
Proof.
  intros Hl. unfold initial_counts. rewrite dict_comprehension_lookup.
  rewrite decide_True; [reflexivity|].
  apply list_elem_of_fmap. now exists l.
Qed.

Lemma initial_counts_keys d k :
  is_Some (initial_counts d !! k) <-> exists l, l ∈ initials /\ k = [l].
Proof.
  unfold initial_counts. rewrite dict_comprehension_lookup.
  destruct (decide (k ∈ List.map (fun initial => [initial]) initials)) as [H|H].
  - split; [|eauto]. intros _. apply list_elem_of_fmap in H as [l [-> Hl]]. eauto.
  - split; [intros [v Hv]; discriminate Hv|].
    intros [l [Hl ->]]. destruct H. apply list_elem_of_fmap. now exists l.
Qed.
End InitialFacts.

Lemma by_initial_raises (d : gmap str Z) :
  is_Some (d !! []) -> count_words_by_initial d = Raise IndexError.
Proof.
  intros [v Hv]. unfold count_words_by_initial.
  change initials with (97%N :: List.map N.of_nat (List.seq 98 25)).
  cbn [List.fold_left].
  replace (add_initial d (Ok ∅) 97%N) with (Raise IndexError : result (gmap str Z)).
  - apply by_initial_fold_raise.
  - unfold add_initial. cbn [rbind]. now rewrite initial_total_spec, Hv.
Qed.

Lemma by_initial_inv (d m : gmap str Z) :
  count_words_by_initial d = Ok m -> d !! [] = None /\ m = initial_counts d.
Proof.
  intros Hm. destruct (d !! []) as [v|] eqn:Hd.
  - rewrite by_initial_raises in Hm by eauto. discriminate Hm.
  - rewrite count_words_by_initial_ok in Hm by exact Hd. injection Hm as <-. auto.
Qed.

(** X21.  When the empty word is a key, [count_words_by_initial] raises
    [IndexError]. *)
Theorem count_words_by_initial_empty_word (d : gmap str Z) :
  is_Some (d !! []) -> count_words_by_initial d = Raise IndexError.
Proof. apply by_initial_raises. Qed.

Lemma count_words_by_initial_empty_word_witness :
  count_words_by_initial {[ [] := 1; text_of "a" := 2 ]} = Raise IndexError.
Proof.
  apply count_words_by_initial_empty_word.
  exists 1. reflexivity.
Defined.

(** X22.  When the empty word is no key, [count_words_by_initial] returns a
    dictionary whose keys are the twenty-six letters from a to z, each with
    the sum of the counts of the words that begin with it in either case;
    this also for the empty dictionary, where every total is 0. *)
Theorem count_words_by_initial_returns (d : gmap str Z) :
  d !! [] = None ->
  exists m,
    count_words_by_initial d = Ok m /\
    (forall l, l ∈ initials -> m !! [l] = Some (initial_sum d l)) /\
    (forall k, is_Some (m !! k) <-> exists l, l ∈ initials /\ k = [l]) /\
    (d = ∅ -> forall l, l ∈ initials -> m !! [l] = Some 0).
Proof.
  intros Hnone. exists (initial_counts d).
  split; [now apply count_words_by_initial_ok|].
  split; [intros l; apply initial_counts_lookup|].
  split; [apply initial_counts_keys|].
  intros -> l Hl. rewrite initial_counts_lookup by exact Hl.
  unfold initial_sum. now rewrite map_fold_empty.
Qed.

Lemma count_words_by_initial_returns_witness :
  exists m, count_words_by_initial {[ text_of "Ab" := 2; text_of "ax" := 3 ]} = Ok m.
Proof.
  destruct (count_words_by_initial_returns {[ text_of "Ab" := 2; text_of "ax" := 3 ]})
    as [m [Hm _]].
  - reflexivity.
  - exists m. exact Hm.
Defined.

Section InitialSums.
Implicit Types (d m : gmap str Z) (l : N) (i k : str).

Lemma counted_add l i (x y : Z) : counted l i (x + y) = counted l i x + counted l i y.
Proof. unfold counted. destruct i as [|c i]; [reflexivity|]. destruct (initial_is c l); lia. Qed.

Lemma counted_zero l i : counted l i 0 = 0.
Proof. unfold counted. destruct i as [|c i]; [reflexivity|]. now destruct (initial_is c l). Qed.

Lemma get_insert_eq m i (v : Z) : get (<[i := v]> m) i 0 = v.
Proof. unfold get. now rewrite lookup_insert_eq. Qed.

Lemma get_none m i : m !! i = None -> get m i 0 = 0.
Proof. intros H. unfold get. now rewrite H. Qed.

Lemma initial_sum_without m i l :
  initial_sum m l = counted l i (get m i 0) + initial_sum (delete i m) l.
Proof.
  unfold get. destruct (m !! i) as [w|] eqn:Hi.
  - rewrite <- (insert_delete_id m i w Hi) at 1.
    apply initial_sum_insert, lookup_delete_eq.
  - rewrite counted_zero, delete_id by exact Hi. lia.
Qed.

Lemma merge_insert m d2 i (x : Z) :
  m !! i = None ->
  merge_word_counts (<[i := x]> m) d2 =
  <[i := x + get d2 i 0]> (merge_word_counts m d2).
Proof.
  intros Hnone. apply map_eq. intros k. rewrite merge_lookup, dom_insert_L.
  destruct (decide (i = k)) as [->|Hne].
  - rewrite lookup_insert_eq.
    rewrite decide_True by (rewrite !elem_of_union, elem_of_singleton; auto).
    unfold get at 1. now rewrite lookup_insert_eq.
  - rewrite lookup_insert_ne by exact Hne. rewrite merge_lookup.
    unfold get at 1 3. rewrite lookup_insert_ne by exact Hne.
    destruct (decide (k ∈ dom m ∪ dom d2)) as [H|H].
    + rewrite decide_True; [reflexivity|]. rewrite !elem_of_union in *. tauto.
    + rewrite decide_False; [reflexivity|].
      rewrite !elem_of_union, elem_of_singleton in *. intuition congruence.
Qed.

(** The total of a letter in a merged dictionary is the sum of its totals
    in the two dictionaries. *)
Lemma initial_sum_merge d1 d2 l :
  initial_sum (merge_word_counts d1 d2) l = initial_sum d1 l + initial_sum d2 l.
Proof.
  induction d1 as [|i x m Hnone IH] using map_ind.
  - replace (merge_word_counts ∅ d2) with d2.
    + unfold initial_sum at 2. rewrite map_fold_empty. lia.
    + apply map_eq. intros k. rewrite merge_lookup, dom_empty_L.
      unfold get. rewrite lookup_empty.
      destruct (d2 !! k) as [v|] eqn:Hk.
      * rewrite decide_True by (apply elem_of_union; rewrite elem_of_dom; eauto).
        reflexivity.
      * rewrite decide_False; [reflexivity|].
        rewrite elem_of_union, elem_of_dom, Hk.
        intros [H|H]; [now apply not_elem_of_empty in H | now destruct H].
  - rewrite (merge_insert m d2 i x Hnone).
    pose proof (initial_sum_without
                  (<[i := x + get d2 i 0]> (merge_word_counts m d2)) i l) as E1.
    rewrite get_insert_eq, delete_insert_eq in E1.
    pose proof (initial_sum_without (merge_word_counts m d2) i l) as E2.
    rewrite get_merge, (get_none m i Hnone) in E2.
    pose proof (initial_sum_insert m i x l Hnone) as E3.
    rewrite counted_add in E1. rewrite counted_add, counted_zero in E2. lia.
Qed.

Lemma sum_over_ext (f g : str -> Z) (keys : list str) :
  (forall k, f k = g k) -> sum_over f keys = sum_over g keys.
Proof.
  intros Hfg. induction keys as [|k keys IH]; simpl; [reflexivity|].
  now rewrite Hfg, IH.
Qed.

Lemma sum_over_zero (keys : list str) : sum_over (fun _ => 0) keys = 0.
Proof. induction keys as [|k keys IH]; simpl; [reflexivity | now rewrite IH]. Qed.

Lemma initial_sum_fold_insert (value : str -> Z) (keys : list str) d l :
  NoDup keys -> (forall k, k ∈ keys -> d !! k = None) ->
  initial_sum (List.fold_left (fun d key => <[key := value key]> d) keys d) l =
  sum_over (fun k => counted l k (value k)) keys + initial_sum d l.
Proof.
  intros Hnd. revert d. induction Hnd as [|k keys Hk Hnd IH]; intros d Hfresh; simpl.
  - reflexivity.
  - rewrite IH.
    + rewrite initial_sum_insert by (apply Hfresh; now left). lia.
    + intros k' Hk'. rewrite lookup_insert_ne.
      * apply Hfresh. now right.
      * intros ->. contradiction.
Qed.

(** Summed over keys without repetition, the counts of the keys that begin
    with a letter cover the positions of [words] that hold such a key. *)
Lemma sum_over_counted l (keys words : list str) :
  NoDup keys ->
  sum_over (fun k => counted l k (count k words)) keys =
  Z.of_nat (List.length
              (List.filter (fun w => begins_with l w && bool_decide (w ∈ keys)) words)).
Proof.
  intros Hnd. induction words as [|w words IH].
  - simpl. rewrite (sum_over_ext _ (fun _ => 0)) by (intros k; apply counted_zero).
    apply sum_over_zero.
  - rewrite (sum_over_ext _
               (fun k => (if begins_with l w then
                            (if bool_decide (w = k) then 1 else 0) else 0)
                         + counted l k (count k words))).
    + rewrite sum_over_add, IH. cbn [List.filter].
      destruct (begins_with l w); cbn [andb].
      * rewrite (sum_over_indicator w keys Hnd).
        destruct (bool_decide (w ∈ keys)); simpl List.length; lia.
      * rewrite sum_over_zero. lia.
    + intros k. cbn [count]. rewrite counted_add. f_equal.
      case_bool_decide as Hwk.
      * subst k. unfold counted, begins_with. destruct w as [|c w]; [reflexivity|].
        now destruct (initial_is c l).
      * rewrite counted_zero. now destruct (begins_with l w).
Qed.
End InitialSums.

(** X23.  The totals of the letters of a merged dictionary are the merge of the
    totals: when [count_words_by_initial] returns for two dictionaries, it
    returns for their merge, with the sums of the two totals. *)
Theorem count_words_by_initial_merge (d1 d2 m1 m2 : gmap str Z) :
  count_words_by_initial d1 = Ok m1 ->
  count_words_by_initial d2 = Ok m2 ->
  count_words_by_initial (merge_word_counts d1 d2) = Ok (merge_word_counts m1 m2).
Proof.
  intros H1 H2.
  apply by_initial_inv in H1 as [Hd1 ->]. apply by_initial_inv in H2 as [Hd2 ->].
  rewrite count_words_by_initial_ok.
  - f_equal. apply map_eq. intros k.
    rewrite merge_lookup. unfold get, initial_counts.
    rewrite !dict_comprehension_dom, !dict_comprehension_lookup.
    destruct (decide (k ∈ List.map (fun initial => [initial]) initials)) as [H|H].
    + rewrite decide_True by (apply elem_of_union; left; now apply elem_of_list_to_set).
      now rewrite initial_sum_merge.
    + rewrite decide_False; [reflexivity|].
      rewrite elem_of_union, !elem_of_list_to_set. tauto.
  - rewrite merge_lookup. apply decide_False.
    rewrite elem_of_union, !elem_of_dom, Hd1, Hd2. intros [[v Hv]|[v Hv]]; discriminate.
Qed.

Lemma count_words_by_initial_merge_witness :
  exists m1 m2,
    count_words_by_initial (count_word_occurrences (text_of "a b A")) = Ok m1 /\
    count_words_by_initial (count_word_occurrences (text_of "b c")) = Ok m2 /\
    count_words_by_initial
      (merge_word_counts (count_word_occurrences (text_of "a b A"))
         (count_word_occurrences (text_of "b c"))) = Ok (merge_word_counts m1 m2).
Proof.
  assert (H1 : count_words_by_initial (count_word_occurrences (text_of "a b A"))
               = Ok (initial_counts (count_word_occurrences (text_of "a b A")))).
  { apply count_words_by_initial_ok. reflexivity. }
  assert (H2 : count_words_by_initial (count_word_occurrences (text_of "b c"))
               = Ok (initial_counts (count_word_occurrences (text_of "b c")))).
  { apply count_words_by_initial_ok. reflexivity. }
  eexists _, _. split; [exact H1|]. split; [exact H2|].
  exact (count_words_by_initial_merge _ _ _ _ H1 H2).
Defined.

(** X24.  For the dictionary of a text [count_words_by_initial] returns, and the
    total of each letter is the number of words of the text that begin with
    that letter, small or capital. *)
Theorem count_words_by_initial_of_text (text : str) :
  exists m,
    count_words_by_initial (count_word_occurrences text) = Ok m /\
    forall l, l ∈ initials ->
      m !! [l] =
      Some (Z.of_nat (List.length (List.filter (begins_with l) (split text)))).
Proof.
  exists (initial_counts (count_word_occurrences text)). split.
  - apply count_words_by_initial_ok.
    unfold count_word_occurrences. cbv zeta. rewrite dict_comprehension_lookup.
    apply decide_False. intros Hin.
    pose proof (split_from_words [] text (List.Forall_nil _)) as Hall.
    rewrite Forall_forall in Hall. now destruct (Hall [] Hin) as [Hne _].
  - intros l Hl. rewrite initial_counts_lookup by exact Hl. f_equal.
    unfold count_word_occurrences. cbv zeta.
    rewrite (dict_comprehension_ext _ (fun word => count word (split text))
               (split text) (remove_dups (split text))).
    + unfold dict_comprehension. rewrite initial_sum_fold_insert.
      * rewrite sum_over_counted by apply NoDup_remove_dups.
        unfold initial_sum. rewrite map_fold_empty, Z.add_0_r. do 2 f_equal.
        apply List.filter_ext_in. intros w Hw.
        rewrite bool_decide_eq_true_2; [apply andb_true_r|].
        now apply elem_of_remove_dups, list_elem_of_In.
      * apply NoDup_remove_dups.
      * intros k _. apply lookup_empty.
    + intros k. symmetry. apply elem_of_remove_dups.
    + reflexivity.
Qed.
